(** * llava_ros: the request-lifecycle coordinator of [LlavaNode]

    A shallow embedding of [llava_ros/llava_node.cpp]: the base64 encoder,
    the goal / cancel / accept handlers of the action server, the execution
    coordinator [execute] and the streaming emitter [send_text], followed by
    the properties the specification states about them. *)

From Stdlib Require Import ZArith List Bool Lia String Ascii.
From Stdlib.Strings Require Import Byte.
Import ListNotations.

Local Open Scope Z_scope.

(** ** Machine integers

    [unsigned int] is 32 bits wide and wraps around; [size_t] is the 64-bit
    unsigned type of the LP64 targets ROS 2 runs on.  An [unsigned char] is
    a [byte]; [uchar] is its value after integer promotion. *)

Module Cxx.

Definition UINT_WIDTH : Z := 32.
Definition UINT_MODULUS : Z := 2 ^ UINT_WIDTH.
Definition UINT_MAX : Z := UINT_MODULUS - 1.
Definition SIZE_MODULUS : Z := 2 ^ 64.

(** Arithmetic on [unsigned int] is reduced modulo [2 ^ 32]. *)
Definition uint (z : Z) : Z := z mod UINT_MODULUS.

(** Arithmetic on [size_t] is reduced modulo [2 ^ 64]. *)
Definition size_t (z : Z) : Z := z mod SIZE_MODULUS.

Definition uchar (b : byte) : Z := Z.of_N (Byte.to_N b).

(** [p[i]] for a buffer [p]; reading past the end is undefined in C++ and
    is given the value of a zero byte here. *)
Definition at_ (p : list byte) (i : Z) : Z :=
  uchar (nth (Z.to_nat i) p x00).

(** [s[i]] for a character table. *)
Definition char_at (s : string) (i : Z) : ascii :=
  match String.get (Z.to_nat i) s with
  | Some c => c
  | None => Ascii.zero
  end.

(** [std::string::push_back] on the characters collected so far. *)
Definition push_back (ret : list ascii) (c : ascii) : list ascii :=
  ret ++ [c].

End Cxx.

Import Cxx.

(** ** [LlavaNode::base64_encode] *)

Module Base64.

(** [static const char *base64_chars[2]], subscripted by [url]. *)
Definition base64_chars (url : bool) : string :=
  if url
  then "ABCDEFGHIJKLMNOPQRSTUVWXYZabcdefghijklmnopqrstuvwxyz0123456789-_"
  else "ABCDEFGHIJKLMNOPQRSTUVWXYZabcdefghijklmnopqrstuvwxyz0123456789+/".

(** [unsigned char trailing_char = url ? '.' : '=';] *)
Definition trailing_char (url : bool) : ascii :=
  if url then "."%char else "="%char.

(** [size_t len_encoded = (in_len + 2) / 3 * 4;] (only used to reserve). *)
Definition len_encoded (in_len : Z) : Z :=
  size_t (size_t (in_len + 2) / 3 * 4).

(** One pass through the body of [while (pos < in_len)]: the characters it
    pushes.  [pos] is an [unsigned int], so [pos + k] is computed modulo
    [2 ^ 32] before it is compared with [in_len] or used as a subscript. *)
Definition base64_body (base64_chars_ : string) (trailing : ascii)
    (bytes_to_encode : list byte) (in_len : Z) (pos : Z)
    (ret : list ascii) : list ascii :=
  let ret :=
    push_back ret
      (char_at base64_chars_
         (Z.shiftr (Z.land (at_ bytes_to_encode (uint (pos + 0))) 0xfc) 2)) in
  if uint (pos + 1) <? in_len then
    let ret :=
      push_back ret
        (char_at base64_chars_
           (Z.shiftl (Z.land (at_ bytes_to_encode (uint (pos + 0))) 0x03) 4 +
            Z.shiftr (Z.land (at_ bytes_to_encode (uint (pos + 1))) 0xf0) 4)) in
    if uint (pos + 2) <? in_len then
      let ret :=
        push_back ret
          (char_at base64_chars_
             (Z.shiftl (Z.land (at_ bytes_to_encode (uint (pos + 1))) 0x0f) 2 +
              Z.shiftr (Z.land (at_ bytes_to_encode (uint (pos + 2))) 0xc0) 6)) in
      push_back ret
        (char_at base64_chars_
           (Z.land (at_ bytes_to_encode (uint (pos + 2))) 0x3f))
    else
      let ret :=
        push_back ret
          (char_at base64_chars_
             (Z.shiftl (Z.land (at_ bytes_to_encode (uint (pos + 1))) 0x0f) 2)) in
      push_back ret trailing
  else
    let ret :=
      push_back ret
        (char_at base64_chars_
           (Z.shiftl (Z.land (at_ bytes_to_encode (uint (pos + 0))) 0x03) 4)) in
    let ret := push_back ret trailing in
    push_back ret trailing.

(** The [while] loop.  It need not terminate (see [base64_loop_diverges]),
    so it runs on fuel: [None] means the fuel ran out before the loop
    condition became false. *)
Fixpoint base64_loop (fuel : nat) (base64_chars_ : string) (trailing : ascii)
    (bytes_to_encode : list byte) (in_len : Z) (pos : Z)
    (ret : list ascii) : option (list ascii) :=
  match fuel with
  | O => None
  | S fuel' =>
      if pos <? in_len then
        let ret :=
          base64_body base64_chars_ trailing bytes_to_encode in_len pos ret in
        base64_loop fuel' base64_chars_ trailing bytes_to_encode in_len
          (uint (pos + 3)) ret
      else Some ret
  end.

Definition base64_encode_fuel (fuel : nat) (bytes_to_encode : list byte)
    (in_len : Z) (url : bool) : option string :=
  option_map string_of_list_ascii
    (base64_loop fuel (base64_chars url) (trailing_char url)
       bytes_to_encode in_len 0 []).

(** [base64_encode(bytes_to_encode, in_len, url)], with as much fuel as the
    loop can use when it terminates at all: one pass per byte and one for
    the final test.  [None] stands for a call that does not return. *)
Definition base64_encode (bytes_to_encode : list byte) (in_len : Z)
    (url : bool) : option string :=
  base64_encode_fuel (S (Z.to_nat in_len)) bytes_to_encode in_len url.

(** Modelled from the spec: the default argument of [url] is declared in
    [llava_ros/llava_node.hpp], which is not among the sources; the spec
    fixes the coordinator's mode (standard alphabet with [=] padding, no
    URL-safe variant), so the default is [false]. *)
Definition base64_encode_default_url : bool := false.

(** *** Standard base64, from its definition

    The reference the encoder is compared with: RFC 4648 base64 as the
    specification words it.  A group of three bytes is a 24-bit number cut
    into four 6-bit values; a final group of one byte gives two symbols and
    two padding characters, a final group of two bytes three symbols and
    one padding character. *)

Definition std_symbol (v : Z) : ascii :=
  if v <? 26 then ascii_of_N (Z.to_N (65 + v))
  else if v <? 52 then ascii_of_N (Z.to_N (97 + (v - 26)))
  else if v <? 62 then ascii_of_N (Z.to_N (48 + (v - 52)))
  else if v =? 62 then "+"%char
  else "/"%char.

Definition std_value (c : ascii) : option Z :=
  let n := Z.of_N (N_of_ascii c) in
  if (65 <=? n) && (n <=? 90) then Some (n - 65)
  else if (97 <=? n) && (n <=? 122) then Some (n - 97 + 26)
  else if (48 <=? n) && (n <=? 57) then Some (n - 48 + 52)
  else if n =? 43 then Some 62
  else if n =? 47 then Some 63
  else None.

Definition pad : ascii := "="%char.

Definition group24 (b0 b1 b2 : Z) : Z := b0 * 65536 + b1 * 256 + b2.

Definition sextet (k : Z) (n : Z) : Z := (n / 64 ^ (3 - k)) mod 64.

Fixpoint std_encode (l : list byte) : list ascii :=
  match l with
  | [] => []
  | [b0] =>
      let n := group24 (uchar b0) 0 0 in
      [std_symbol (sextet 0 n); std_symbol (sextet 1 n); pad; pad]
  | [b0; b1] =>
      let n := group24 (uchar b0) (uchar b1) 0 in
      [std_symbol (sextet 0 n); std_symbol (sextet 1 n);
       std_symbol (sextet 2 n); pad]
  | b0 :: b1 :: b2 :: rest =>
      let n := group24 (uchar b0) (uchar b1) (uchar b2) in
      std_symbol (sextet 0 n) :: std_symbol (sextet 1 n) ::
      std_symbol (sextet 2 n) :: std_symbol (sextet 3 n) :: std_encode rest
  end.

Definition byte_of_Z (z : Z) : byte :=
  match Byte.of_N (Z.to_N z) with
  | Some b => b
  | None => x00
  end.

Definition octet (k : Z) (n : Z) : byte :=
  byte_of_Z ((n / 256 ^ (2 - k)) mod 256).

Definition unsextets (v0 v1 v2 v3 : Z) : Z :=
  v0 * 262144 + v1 * 4096 + v2 * 64 + v3.

Definition is_pad (c : ascii) : bool := Ascii.eqb c pad.

(** Decoding with the standard alphabet and padding: four symbols at a
    time; padding is accepted in the last group only. *)
Fixpoint std_decode (s : list ascii) : option (list byte) :=
  match s with
  | [] => Some []
  | c0 :: c1 :: c2 :: c3 :: rest =>
      match std_value c0, std_value c1 with
      | Some v0, Some v1 =>
          if is_pad c3 then
            match rest with
            | [] =>
                if is_pad c2 then
                  Some [octet 0 (unsextets v0 v1 0 0)]
                else
                  match std_value c2 with
                  | Some v2 =>
                      let n := unsextets v0 v1 v2 0 in
                      Some [octet 0 n; octet 1 n]
                  | None => None
                  end
            | _ :: _ => None
            end
          else
            match std_value c2, std_value c3, std_decode rest with
            | Some v2, Some v3, Some tl =>
                let n := unsextets v0 v1 v2 v3 in
                Some (octet 0 n :: octet 1 n :: octet 2 n :: tl)
            | _, _, _ => None
            end
      | _, _ => None
      end
  | _ => None
  end.

(** What the URL mode puts in place of a character of the standard mode:
    [-] for [+], [_] for [/], and [.] for the padding [=]. *)
Definition url_char (c : ascii) : ascii :=
  if Ascii.eqb c "+"%char then "-"%char
  else if Ascii.eqb c "/"%char then "_"%char
  else if Ascii.eqb c "="%char then "."%char
  else c.

Definition url_variant (s : string) : string :=
  string_of_list_ascii (map url_char (list_ascii_of_string s)).

(** The character a mode writes where the standard mode writes [c]. *)
Definition mode_char (url : bool) (c : ascii) : ascii :=
  if url then url_char c else c.

(** Reading URL-mode output: [-], [_] and [.] stand for [+], [/] and [=];
    the rest is decoded as standard base64. *)
Definition std_char (c : ascii) : ascii :=
  if Ascii.eqb c "-"%char then "+"%char
  else if Ascii.eqb c "_"%char then "/"%char
  else if Ascii.eqb c "."%char then "="%char
  else c.

Definition url_decode (s : list ascii) : option (list byte) :=
  std_decode (map std_char s).

(** A character that needs no escaping in a URL, as far as base64 goes:
    none of [+], [/], [=]. *)
Definition url_safe (c : ascii) : bool :=
  negb (Ascii.eqb c "+"%char || Ascii.eqb c "/"%char || Ascii.eqb c "="%char).

(** The number of padding characters a buffer of [len] bytes needs. *)
Definition padding_count (len : Z) : Z := (3 - len mod 3) mod 3.

End Base64.

Import Base64.

(** ** Messages and engine structures

    The structures [execute] and [send_text] read and build.  A [float] is
    only ever copied from the engine's output into a message, so it is kept
    as its 32-bit pattern. *)

Definition float : Type := Z.
Definition llama_token : Type := Z.

(** [struct token_prob] and [struct completion_output] of the engine. *)
Record token_prob : Type := mk_token_prob {
  tp_token : llama_token;
  tp_probability : float
}.

Record completion_output : Type := mk_completion_output {
  co_probs : list token_prob;
  co_token : llama_token
}.

Module TokenProb.
Record t : Type := mk {
  token : llama_token;
  probability : float;
  token_text : string
}.
End TokenProb.

Module TokenProbArray.
Record t : Type := mk {
  chosen_token : llama_token;
  data : list TokenProb.t
}.
(** A default-constructed message. *)
Definition empty : t := mk 0 [].
End TokenProbArray.

Module PartialResponse.
Record t : Type := mk {
  text : string;
  token : llama_token;
  probs : TokenProbArray.t
}.
End PartialResponse.

Module Response.
Record t : Type := mk {
  text : string;
  tokens : list llama_token;
  probs : list TokenProbArray.t
}.
Definition empty : t := mk EmptyString [] [].
End Response.

(** [sensor_msgs::msg::Image]: the fields the node and the codec read. *)
Module Image.
Record t : Type := mk {
  height : Z;
  width : Z;
  encoding : string;
  step : Z;
  data : list byte
}.
End Image.

(** [GenerateResponse::Feedback] and [GenerateResponse::Result]. *)
Record Feedback : Type := mk_Feedback { partial_response : PartialResponse.t }.
Record Result : Type := mk_Result { response : Response.t }.

(** [rclcpp_action::GoalResponse] and [rclcpp_action::CancelResponse]. *)
Inductive GoalResponse : Type := REJECT | ACCEPT_AND_EXECUTE | ACCEPT_AND_DEFER.
Inductive CancelResponse : Type := CANCEL_REJECT | CANCEL_ACCEPT.

(** The states of a server goal handle (action_msgs/GoalStatus). *)
Inductive GoalStatus : Type :=
| STATUS_UNKNOWN
| STATUS_ACCEPTED
| STATUS_EXECUTING
| STATUS_CANCELING
| STATUS_SUCCEEDED
| STATUS_CANCELED
| STATUS_ABORTED.

(** ** The collaborators of the node

    The inference engine ([Llava]), the sampling-parameter adapter of
    [llama_utils] and the OpenCV / cv_bridge codec are outside the node;
    the node is verified against any implementation of this interface. *)
Class Engine : Type := {
  Llava : Type;
  SamplingConfig : Type;
  GptParams : Type;
  llava_reset : Llava -> Llava;
  llava_cancel : Llava -> Llava;
  llava_get_n_vocab : Llava -> Z;
  llava_get_token_eos : Llava -> Z;
  llava_load_image : string -> Llava -> bool * Llava;
  llava_free_image : Llava -> Llava;
  llava_detokenize : list llama_token -> string;
  (** The completion units a generation call produces, and the engine
      after it. *)
  llava_generate :
    string -> bool -> GptParams -> Llava -> list completion_output * Llava;
  update_sampling_params :
    SamplingConfig -> Z -> Z -> GptParams -> GptParams;
  (** [cv_bridge::toCvCopy] followed by [cv::imencode(".jpg", ...)];
      [None] when the conversion throws. *)
  cv_imencode_jpg : Image.t -> option (list byte)
}.

(** ** A state and error monad

    The node's methods read and write the members of [LlavaNode] and call
    into the engine and the goal handle; a method either returns or ends in
    a [Fault] (an exception thrown by a library, a null [shared_ptr]
    dereferenced, a call that never returns). *)

Inductive Fault : Type :=
| NULL_DEREFERENCE
| INVALID_TRANSITION
| CV_EXCEPTION
| NO_RETURN.

Module Monad.

Definition M (S A : Type) : Type := S -> Fault + A * S.

Definition ret {S A : Type} (a : A) : M S A := fun s => inr (a, s).

Definition bind {S A B : Type} (m : M S A) (k : A -> M S B) : M S B :=
  fun s =>
    match m s with
    | inl f => inl f
    | inr (a, s') => k a s'
    end.

Definition fail {S A : Type} (f : Fault) : M S A := fun _ => inl f.

Definition get {S A : Type} (proj : S -> A) : M S A :=
  fun s => inr (proj s, s).

Definition modify {S : Type} (f : S -> S) : M S unit :=
  fun s => inr (tt, f s).

(** The value a run returned, and the state it returned in ([s] itself
    when it did not return). *)
Definition value {S A : Type} (r : Fault + A * S) : option A :=
  match r with
  | inr (a, _) => Some a
  | inl _ => None
  end.

Definition final {S A : Type} (m : M S A) (s : S) : S :=
  match m s with
  | inr (_, s') => s'
  | inl _ => s
  end.

(** [for (auto x : xs) body(x);] *)
Fixpoint for_each {S A : Type} (xs : list A) (body : A -> M S unit)
    : M S unit :=
  match xs with
  | [] => ret tt
  | x :: xs' => bind (body x) (fun _ => for_each xs' body)
  end.

End Monad.

Import Monad.

Declare Scope monad_scope.
Delimit Scope monad_scope with monad.
Notation "x <- m ;; k" := (bind m (fun x => k))
  (at level 61, m at next level, right associativity) : monad_scope.
Notation "m ;;; k" := (bind m (fun _ => k))
  (at level 61, right associativity) : monad_scope.

(** ** The node *)

Section Node.

Context {E : Engine}.

(** [GenerateResponse::Goal]. *)
Record Goal : Type := mk_Goal {
  prompt : string;
  image : Image.t;
  reset : bool;
  sampling_config : SamplingConfig
}.

(** A [std::shared_ptr<GoalHandleGenerateResponse>]: the identity of the
    goal handle object it points to, and that object's goal.  The object's
    mutable state lives in [State]; two pointers with one [uuid] alias. *)
Record GoalHandle : Type := mk_GoalHandle {
  uuid : nat;
  get_goal : Goal
}.

(** What the node does to its collaborators and to the transport. *)
Inductive Event : Type :=
| ev_llava_reset
| ev_llava_cancel
| ev_update_sampling_params (n_vocab eos : Z)
| ev_cv_imencode (img : Image.t)
| ev_base64_encode (in_len : Z) (url : bool)
| ev_load_image (encoded : string) (loaded : bool)
| ev_free_image
| ev_generate_response (p : string)
| ev_publish_feedback (id : nat) (fb : Feedback)
| ev_abort (id : nat) (r : Result)
| ev_succeed (id : nat) (r : Result)
| ev_canceled (id : nat) (r : Result).

(** Where a detached [execute] thread stands. *)
Inductive Pc : Type :=
| PC_START
| PC_RESOLVE (result : Result)
| PC_CLEAR
| PC_DONE.

Record Thread : Type := mk_Thread {
  th_goal_handle : GoalHandle;
  th_pc : Pc
}.

(** The members of [LlavaNode] ([goal_handle_], [llava], [gpt_params]) and
    the part of the process around it that the node observes: the status of
    every goal handle object, [rclcpp::ok()], the detached threads, and the
    calls made so far. *)
Record State : Type := mk_State {
  goal_handle_ : option GoalHandle;
  llava : Llava;
  gpt_params : GptParams;
  status : nat -> GoalStatus;
  rclcpp_ok : bool;
  threads : list Thread;
  next_uuid : nat;
  trace : list Event
}.

Definition set_goal_handle_ (v : option GoalHandle) (s : State) : State :=
  mk_State v (llava s) (gpt_params s) (status s) (rclcpp_ok s) (threads s)
    (next_uuid s) (trace s).

Definition set_llava (v : Llava) (s : State) : State :=
  mk_State (goal_handle_ s) v (gpt_params s) (status s) (rclcpp_ok s)
    (threads s) (next_uuid s) (trace s).

Definition set_gpt_params (v : GptParams) (s : State) : State :=
  mk_State (goal_handle_ s) (llava s) v (status s) (rclcpp_ok s) (threads s)
    (next_uuid s) (trace s).

Definition set_status (id : nat) (v : GoalStatus) (s : State) : State :=
  mk_State (goal_handle_ s) (llava s) (gpt_params s)
    (fun j => if Nat.eqb j id then v else status s j)
    (rclcpp_ok s) (threads s) (next_uuid s) (trace s).

Definition set_rclcpp_ok (v : bool) (s : State) : State :=
  mk_State (goal_handle_ s) (llava s) (gpt_params s) (status s) v (threads s)
    (next_uuid s) (trace s).

Definition set_threads (v : list Thread) (s : State) : State :=
  mk_State (goal_handle_ s) (llava s) (gpt_params s) (status s) (rclcpp_ok s)
    v (next_uuid s) (trace s).

Definition set_next_uuid (v : nat) (s : State) : State :=
  mk_State (goal_handle_ s) (llava s) (gpt_params s) (status s) (rclcpp_ok s)
    (threads s) v (trace s).

Definition log (e : Event) (s : State) : State :=
  mk_State (goal_handle_ s) (llava s) (gpt_params s) (status s) (rclcpp_ok s)
    (threads s) (next_uuid s) (trace s ++ [e]).

Local Open Scope monad_scope.

(** *** The goal handle ([rclcpp_action::ServerGoalHandle]) *)

Definition status_active (st : GoalStatus) : bool :=
  match st with
  | STATUS_ACCEPTED | STATUS_EXECUTING | STATUS_CANCELING => true
  | _ => false
  end.

Definition status_canceling (st : GoalStatus) : bool :=
  match st with
  | STATUS_CANCELING => true
  | _ => false
  end.

Definition status_executing_or_canceling (st : GoalStatus) : bool :=
  match st with
  | STATUS_EXECUTING | STATUS_CANCELING => true
  | _ => false
  end.

Definition is_active (gh : GoalHandle) : M State bool :=
  get (fun s => status_active (status s (uuid gh))).

Definition is_canceling (gh : GoalHandle) : M State bool :=
  get (fun s => status_canceling (status s (uuid gh))).

(** A terminal transition; the handle throws when its state does not
    allow it. *)
Definition terminate (gh : GoalHandle) (allowed : GoalStatus -> bool)
    (target : GoalStatus) (e : Event) : M State unit :=
  st <- get (fun s => status s (uuid gh)) ;;
  if allowed st
  then modify (fun s => log e (set_status (uuid gh) target s))
  else fail INVALID_TRANSITION.

Definition abort (gh : GoalHandle) (result : Result) : M State unit :=
  terminate gh status_executing_or_canceling STATUS_ABORTED
    (ev_abort (uuid gh) result).

Definition succeed (gh : GoalHandle) (result : Result) : M State unit :=
  terminate gh status_executing_or_canceling STATUS_SUCCEEDED
    (ev_succeed (uuid gh) result).

Definition canceled (gh : GoalHandle) (result : Result) : M State unit :=
  terminate gh status_canceling STATUS_CANCELED
    (ev_canceled (uuid gh) result).

Definition publish_feedback (gh : GoalHandle) (fb : Feedback)
    : M State unit :=
  modify (log (ev_publish_feedback (uuid gh) fb)).

(** [this->goal_handle_->...]: dereferencing the member. *)
Definition this_goal_handle_ : M State GoalHandle :=
  o <- get goal_handle_ ;;
  match o with
  | Some gh => ret gh
  | None => fail NULL_DEREFERENCE
  end.

(** *** The engine, as the node calls it *)

Definition llava_reset_call : M State unit :=
  modify (fun s => log ev_llava_reset (set_llava (llava_reset (llava s)) s)).

Definition llava_cancel_call : M State unit :=
  modify (fun s => log ev_llava_cancel (set_llava (llava_cancel (llava s)) s)).

Definition llava_free_image_call : M State unit :=
  modify (fun s => log ev_free_image (set_llava (llava_free_image (llava s)) s)).

Definition llava_load_image_call (encoded : string) : M State bool :=
  r <- get (fun s => llava_load_image encoded (llava s)) ;;
  modify (fun s => log (ev_load_image encoded (fst r)) (set_llava (snd r) s)) ;;;
  ret (fst r).

(** [this->gpt_params.update_sampling_params(sampling_config,
    this->llava->get_n_vocab(), this->llava->get_token_eos())]. *)
Definition update_sampling_params_call (config : SamplingConfig)
    : M State unit :=
  n_vocab <- get (fun s => llava_get_n_vocab (llava s)) ;;
  eos <- get (fun s => llava_get_token_eos (llava s)) ;;
  modify (fun s =>
    log (ev_update_sampling_params n_vocab eos)
      (set_gpt_params
         (update_sampling_params config n_vocab eos (gpt_params s)) s)).

(** Modelled from the spec: [Llava::generate_response] is defined in the
    engine's sources, which are not among the files here.  The engine
    produces a finite, ordered sequence of completion units, hands each one
    to the callback as it is produced, synchronously and in generation
    order, and returns the sequence. *)
Definition generate_response (p : string) (flag : bool)
    (callback : completion_output -> M State unit)
    : M State (list completion_output) :=
  modify (log (ev_generate_response p)) ;;;
  params <- get gpt_params ;;
  l <- get llava ;;
  let completion_results := fst (llava_generate p flag params l) in
  modify (set_llava (snd (llava_generate p flag params l))) ;;;
  for_each completion_results callback ;;;
  ret completion_results.

(** The image codec of [execute]: [toCvCopy], [imencode], [base64_encode]
    called with two arguments. *)
Definition encode_image (image_msg : Image.t) : M State string :=
  modify (log (ev_cv_imencode image_msg)) ;;;
  match cv_imencode_jpg image_msg with
  | None => fail CV_EXCEPTION
  | Some buf =>
      let in_len := Z.of_nat (List.length buf) in
      modify (log (ev_base64_encode in_len base64_encode_default_url)) ;;;
      match base64_encode buf in_len base64_encode_default_url with
      | None => fail NO_RETURN
      | Some encoded_image => ret encoded_image
      end
  end.

(** *** [LlavaNode::send_text] *)

Definition to_TokenProb (prob : token_prob) : TokenProb.t :=
  TokenProb.mk (tp_token prob) (tp_probability prob)
    (llava_detokenize [tp_token prob]).

(** [for (auto prob : completion.probs) { ...; m.data.push_back(aux); }] *)
Definition push_probs (probs : list token_prob) (m : TokenProbArray.t)
    : TokenProbArray.t :=
  fold_left
    (fun m prob =>
       TokenProbArray.mk (TokenProbArray.chosen_token m)
         (TokenProbArray.data m ++ [to_TokenProb prob]))
    probs m.

Definition make_feedback (completion : completion_output) : Feedback :=
  mk_Feedback
    (PartialResponse.mk
       (llava_detokenize [co_token completion])
       (co_token completion)
       (push_probs (co_probs completion)
          (TokenProbArray.mk (co_token completion) []))).

Definition send_text (completion : completion_output) : M State unit :=
  o <- get goal_handle_ ;;
  match o with
  | Some _ =>
      let feedback := make_feedback completion in
      gh <- this_goal_handle_ ;;
      publish_feedback gh feedback
  | None => ret tt
  end.

(** *** [LlavaNode::handle_goal], [handle_cancel], [handle_accepted] *)

Definition handle_goal (id : nat) (goal : Goal) : M State GoalResponse :=
  o <- get goal_handle_ ;;
  active <- match o with
            | Some gh => is_active gh
            | None => ret false
            end ;;
  if active then ret REJECT else ret ACCEPT_AND_EXECUTE.

Definition handle_cancel (goal_handle : GoalHandle) : M State CancelResponse :=
  llava_cancel_call ;;;
  ret CANCEL_ACCEPT.

(** [std::thread{...execute..., goal_handle}.detach()] *)
Definition spawn_execute (goal_handle : GoalHandle) : M State unit :=
  modify (fun s => set_threads (threads s ++ [mk_Thread goal_handle PC_START]) s).

Definition handle_accepted (goal_handle : GoalHandle) : M State unit :=
  modify (set_goal_handle_ (Some goal_handle)) ;;;
  spawn_execute goal_handle.

(** *** [LlavaNode::execute] *)

(** The body of [for (auto completion : completion_results)]. *)
Definition aggregate (result : Result) (completion : completion_output)
    : Result :=
  let r := response result in
  mk_Result
    (Response.mk
       (Response.text r ++ llava_detokenize [co_token completion])%string
       (Response.tokens r ++ [co_token completion])
       (Response.probs r ++
          [push_probs (co_probs completion) TokenProbArray.empty])).

(** From the start of [execute] to the end of the image step: the reset,
    the sampling parameters, and the image loaded or freed.  The value is
    whether the engine has the image it was asked for ([true] when no
    image was sent). *)
Definition execute_setup (goal_handle : GoalHandle) : M State bool :=
  let image_msg := image (get_goal goal_handle) in
  let reset_flag := reset (get_goal goal_handle) in
  (if reset_flag then llava_reset_call else ret tt) ;;;
  update_sampling_params_call (sampling_config (get_goal goal_handle)) ;;;
  if 0 <? Z.of_nat (List.length (Image.data image_msg)) then
    encoded_image <- encode_image image_msg ;;
    llava_load_image_call encoded_image
  else
    llava_free_image_call ;;; ret true.

(** From the start of [execute] to the end of the aggregation loop.
    [None]: the goal was aborted and [execute] returned; [Some result]:
    the aggregated result, not yet delivered. *)
Definition execute_generate (goal_handle : GoalHandle)
    : M State (option Result) :=
  let result := mk_Result Response.empty in
  let p := prompt (get_goal goal_handle) in
  loaded <- execute_setup goal_handle ;;
  if negb loaded then
    gh <- this_goal_handle_ ;;
    abort gh result ;;;
    ret None
  else
    completion_results <- generate_response p true send_text ;;
    ret (Some (fold_left aggregate completion_results result)).

(** [if (is_canceling()) canceled(result); else succeed(result);] *)
Definition execute_resolve (result : Result) : M State unit :=
  gh <- this_goal_handle_ ;;
  canceling <- is_canceling gh ;;
  if canceling then
    gh' <- this_goal_handle_ ;;
    canceled gh' result
  else
    gh' <- this_goal_handle_ ;;
    succeed gh' result.

(** [this->goal_handle_ = nullptr;] *)
Definition execute_clear : M State unit :=
  modify (set_goal_handle_ None).

Definition execute (goal_handle : GoalHandle) : M State unit :=
  o <- execute_generate goal_handle ;;
  match o with
  | None => ret tt
  | Some result =>
      ok <- get rclcpp_ok ;;
      if ok then
        execute_resolve result ;;;
        execute_clear
      else ret tt
  end.

(** ** The process around the node

    The action server calls the handlers from the executor; each accepted
    goal runs [execute] on a thread of its own.  A thread advances in the
    three stretches between which [execute] touches [goal_handle_] and the
    goal handle: generation, resolution, clearing the member. *)

Definition thread_step (t : Thread) : M State Thread :=
  let gh := th_goal_handle t in
  match th_pc t with
  | PC_START =>
      o <- execute_generate gh ;;
      match o with
      | None => ret (mk_Thread gh PC_DONE)
      | Some result => ret (mk_Thread gh (PC_RESOLVE result))
      end
  | PC_RESOLVE result =>
      ok <- get rclcpp_ok ;;
      if ok then
        execute_resolve result ;;;
        ret (mk_Thread gh PC_CLEAR)
      else ret (mk_Thread gh PC_DONE)
  | PC_CLEAR =>
      execute_clear ;;;
      ret (mk_Thread gh PC_DONE)
  | PC_DONE => ret t
  end.

Fixpoint replace_nth {A : Type} (i : nat) (x : A) (l : list A) : list A :=
  match l, i with
  | [], _ => []
  | _ :: l', O => x :: l'
  | y :: l', S i' => y :: replace_nth i' x l'
  end.

(** The server's handling of a goal request: a fresh goal id, the goal
    callback, and on acceptance a new goal handle, already executing, given
    to the accepted callback. *)
Definition server_goal_request (goal : Goal) : M State GoalResponse :=
  id <- get next_uuid ;;
  modify (set_next_uuid (S id)) ;;;
  resp <- handle_goal id goal ;;
  match resp with
  | REJECT => ret REJECT
  | ACCEPT_AND_EXECUTE =>
      modify (set_status id STATUS_EXECUTING) ;;;
      handle_accepted (mk_GoalHandle id goal) ;;;
      ret ACCEPT_AND_EXECUTE
  | ACCEPT_AND_DEFER =>
      modify (set_status id STATUS_ACCEPTED) ;;;
      handle_accepted (mk_GoalHandle id goal) ;;;
      ret ACCEPT_AND_DEFER
  end.

(** The server's handling of a cancel request for a goal that can still be
    canceled: the cancel callback, and on acceptance the transition to
    CANCELING. *)
Definition server_cancel_request (gh : GoalHandle) : M State unit :=
  st <- get (fun s => status s (uuid gh)) ;;
  match st with
  | STATUS_ACCEPTED | STATUS_EXECUTING =>
      resp <- handle_cancel gh ;;
      match resp with
      | CANCEL_ACCEPT => modify (set_status (uuid gh) STATUS_CANCELING)
      | CANCEL_REJECT => ret tt
      end
  | _ => ret tt
  end.

Inductive Action : Type :=
| GOAL_REQUEST (goal : Goal)
| CANCEL_REQUEST (gh : GoalHandle)
| SHUTDOWN
| THREAD_STEP (i : nat)
| THREAD_RUN (i : nat).

Definition advance_thread (i : nat) (steps : nat) : M State unit :=
  (fix go (k : nat) : M State unit :=
     match k with
     | O => ret tt
     | S k' =>
         ts <- get threads ;;
         match nth_error ts i with
         | None => ret tt
         | Some t =>
             t' <- thread_step t ;;
             modify (fun s => set_threads (replace_nth i t' (threads s)) s) ;;;
             go k'
         end
     end) steps.

(** One event of the process.  [THREAD_STEP i] lets thread [i] run its next
    stretch; [THREAD_RUN i] lets it run [execute] to the end without any
    other event in between. *)
Definition step (a : Action) : M State unit :=
  match a with
  | GOAL_REQUEST goal => server_goal_request goal ;;; ret tt
  | CANCEL_REQUEST gh => server_cancel_request gh
  | SHUTDOWN => modify (set_rclcpp_ok false)
  | THREAD_STEP i => advance_thread i 1
  | THREAD_RUN i => advance_thread i 3
  end.

Definition run (schedule : list Action) : M State unit :=
  for_each schedule step.

(** The goals whose coordinator is running. *)
Definition thread_running (t : Thread) : bool :=
  match th_pc t with
  | PC_START | PC_RESOLVE _ => true
  | PC_CLEAR | PC_DONE => false
  end.

Definition running (s : State) : list Thread :=
  filter thread_running (threads s).

(** The events of a schedule in which no [execute] is interrupted. *)
Definition atomic (a : Action) : bool :=
  match a with
  | THREAD_STEP _ => false
  | _ => true
  end.

(** How many stretches a thread has left. *)
Definition pc_rank (pc : Pc) : nat :=
  match pc with
  | PC_START => 3
  | PC_RESOLVE _ => 2
  | PC_CLEAR => 1
  | PC_DONE => 0
  end.

Definition thread_idle (t : Thread) : Prop :=
  th_pc t = PC_START \/ th_pc t = PC_DONE.

(** The state the constructor leaves: [goal_handle_ = nullptr]. *)
Definition init_state (l : Llava) (params : GptParams) : State :=
  mk_State None l params (fun _ => STATUS_UNKNOWN) true [] O [].

(** The calls into the image codec and the engine's image loader. *)
Definition is_codec_event (e : Event) : bool :=
  match e with
  | ev_cv_imencode _ | ev_base64_encode _ _ | ev_load_image _ _ => true
  | _ => false
  end.

(** The calls that resolve a goal. *)
Definition is_resolution_event (e : Event) : bool :=
  match e with
  | ev_abort _ _ | ev_succeed _ _ | ev_canceled _ _ => true
  | _ => false
  end.

Definition is_generate_event (e : Event) : bool :=
  match e with
  | ev_generate_response _ => true
  | _ => false
  end.

(** What the reset flag of a goal does at the start of [execute]: to the
    trace, and to the engine. *)
Definition reset_events (g : Goal) : list Event :=
  if reset g then [ev_llava_reset] else [].

Definition reset_engine (g : Goal) (l : Llava) : Llava :=
  if reset g then llava_reset l else l.

(** A method that, whenever it returns, has taken the state to one related
    to the state it started in. *)
Definition preserves (R : State -> State -> Prop) {A : Type} (m : M State A)
    : Prop :=
  forall s a s1, m s = inr (a, s1) -> R s s1.

(** A step that leaves the member, the goal handles, the process flags and
    the threads alone and only adds to the trace. *)
Definition frame (s s1 : State) : Prop :=
  goal_handle_ s1 = goal_handle_ s /\ status s1 = status s /\
  rclcpp_ok s1 = rclcpp_ok s /\ threads s1 = threads s /\
  next_uuid s1 = next_uuid s /\
  exists evs, trace s1 = trace s ++ evs.

(** A step all of whose calls satisfy [P]. *)
Definition extends (P : Event -> Prop) (s s1 : State) : Prop :=
  exists evs, trace s1 = trace s ++ evs /\ Forall P evs.

(** A step that starts no thread and changes none. *)
Definition same_threads (s s1 : State) : Prop := threads s1 = threads s.

(** No call of the encoder in URL mode. *)
Definition standard_mode (e : Event) : Prop :=
  match e with
  | ev_base64_encode _ url => url = false
  | _ => True
  end.

(** Several calls logged at once. *)
Definition log_all (evs : list Event) (s : State) : State :=
  mk_State (goal_handle_ s) (llava s) (gpt_params s) (status s) (rclcpp_ok s)
    (threads s) (next_uuid s) (trace s ++ evs).

(** The feedback a sequence of completion units is published as, through
    the handle in [goal_handle_] if there is one. *)
Definition feedback_events (o : option GoalHandle)
    (units : list completion_output) : list Event :=
  match o with
  | Some gh => map (fun c => ev_publish_feedback (uuid gh) (make_feedback c)) units
  | None => []
  end.

(** The situation [handle_accepted] leaves for [execute]: the member holds
    the goal handle, which is executing (or already being canceled). *)
Definition accepted (gh : GoalHandle) (s : State) : Prop :=
  goal_handle_ s = Some gh /\
  status_executing_or_canceling (status s (uuid gh)) = true.

(** What admission control maintains while no [execute] is interrupted:
    at most one coordinator is running, and it runs for the goal handle in
    the member, which is active. *)
Definition one_goal (s : State) : Prop :=
  Forall thread_idle (threads s) /\
  (List.length (running s) <= 1)%nat /\
  Forall (fun t => accepted (th_goal_handle t) s) (running s).

(** The aggregated result as the specification words it: the text is the
    concatenation of every unit's detokenized token, the tokens are the
    token ids in order, and the probabilities hold, per unit, its
    alternates with each alternate's token detokenized on its own. *)
Definition detokenized_text (units : list completion_output) : string :=
  fold_right String.append EmptyString
    (map (fun c => llava_detokenize [co_token c]) units).

Definition alternates (c : completion_output) : list TokenProb.t :=
  map to_TokenProb (co_probs c).

Definition aggregated (units : list completion_output) : Result :=
  mk_Result
    (Response.mk (detokenized_text units) (map co_token units)
       (map (fun c => TokenProbArray.mk 0 (alternates c)) units)).

(** The token ids a run has published as feedback, in order. *)
Definition feedback_tokens (evs : list Event) : list llama_token :=
  flat_map
    (fun e =>
       match e with
       | ev_publish_feedback _ fb => [PartialResponse.token (partial_response fb)]
       | _ => []
       end) evs.

(** The calls [execute] has added to the trace. *)
Definition events_since (s s' : State) : list Event :=
  skipn (List.length (trace s)) (trace s').

(** A result with the threads of its state replaced. *)
Definition with_threads {A : Type} (ts : list Thread) (r : Fault + A * State)
    : Fault + A * State :=
  match r with
  | inl f => inl f
  | inr (a, s) => inr (a, set_threads ts s)
  end.

(** A method that neither reads nor writes the list of threads. *)
Definition ignores_threads {A : Type} (m : M State A) : Prop :=
  forall ts s, m (set_threads ts s) = with_threads ts (m s).

(** A call of [load_image] made for the goal of [gh] with the codec's
    buffer in standard base64. *)
Definition standard_image (gh : GoalHandle) (e : Event) : Prop :=
  match e with
  | ev_load_image encoded _ =>
      exists buf,
        cv_imencode_jpg (image (get_goal gh)) = Some buf /\
        base64_encode buf (Z.of_nat (List.length buf)) false = Some encoded /\
        list_ascii_of_string encoded = std_encode buf
  | _ => True
  end.

End Node.

Arguments init_state {E} l params.

(** ** A small engine to run the node on

    Tokens are character codes; the engine answers a prompt with one
    completion unit per character unless it has been cancelled, accepts an
    encoded image of at least eight characters, and the codec hands the
    pixel data through unless the encoding tag is empty. *)

Module Toy.

Record llava_state : Type := mk_llava {
  cancel_flag : bool;
  loaded_image : option string;
  resets : nat
}.

Definition token_of_ascii (c : ascii) : llama_token := Z.of_N (N_of_ascii c).

Definition detokenize (toks : list llama_token) : string :=
  string_of_list_ascii (map (fun t => ascii_of_N (Z.to_N t)) toks).

Definition unit_of_ascii (c : ascii) : completion_output :=
  mk_completion_output
    [mk_token_prob (token_of_ascii c) 1065353216;
     mk_token_prob (token_of_ascii c + 1) 0]
    (token_of_ascii c).

Definition generate (p : string) (flag : bool) (params : Z * Z * Z)
    (l : llava_state) : list completion_output * llava_state :=
  if cancel_flag l
  then ([], mk_llava false (loaded_image l) (resets l))
  else (map unit_of_ascii (list_ascii_of_string p), l).

Definition engine : Engine := {|
  Llava := llava_state;
  SamplingConfig := Z;
  GptParams := Z * Z * Z;
  llava_reset := fun l => mk_llava (cancel_flag l) (loaded_image l) (S (resets l));
  llava_cancel := fun l => mk_llava true (loaded_image l) (resets l);
  llava_get_n_vocab := fun _ => 32000;
  llava_get_token_eos := fun _ => 2;
  llava_load_image := fun enc l =>
    if (8 <=? String.length enc)%nat
    then (true, mk_llava (cancel_flag l) (Some enc) (resets l))
    else (false, l);
  llava_free_image := fun l => mk_llava (cancel_flag l) None (resets l);
  llava_detokenize := detokenize;
  llava_generate := generate;
  update_sampling_params := fun config n_vocab eos _ => (config, n_vocab, eos);
  cv_imencode_jpg := fun img =>
    if String.eqb (Image.encoding img) EmptyString
    then None else Some (Image.data img)
|}.

Definition llava0 : llava_state := mk_llava false None O.

Definition state0 : State (E := engine) := init_state (E := engine) llava0 (0, 0, 0).

Definition no_image : Image.t := Image.mk 0 0 EmptyString 0 [].

(** A one-pixel image whose encoding is four bytes short of a string the
    engine accepts. *)
Definition tiny_image : Image.t := Image.mk 1 1 "rgb8" 3 [x01; x02; x03].

Definition big_image : Image.t :=
  Image.mk 1 2 "rgb8" 6 [x01; x02; x03; x04; x05; x06].

Definition goal_text : Goal (E := engine) := @mk_Goal engine "Hi" no_image true 7.
Definition goal_tiny : Goal (E := engine) := @mk_Goal engine "Hi" tiny_image true 7.
Definition goal_big : Goal (E := engine) := @mk_Goal engine "Hi" big_image false 7.

(** The handle the server makes for the first goal it accepts, and the
    state in which [execute] is started for it. *)
Definition handle (g : Goal (E := engine)) : GoalHandle (E := engine) :=
  @mk_GoalHandle engine O g.

Definition started (g : Goal (E := engine)) : State (E := engine) :=
  match server_goal_request g state0 with
  | inr (_, s) => s
  | inl _ => state0
  end.

(** The state after the image step of [execute]. *)
Definition after_setup (g : Goal (E := engine)) : State (E := engine) :=
  final (execute_setup (handle g)) (started g).

(** The same goal when the process is shutting down. *)
Definition started_shutdown (g : Goal (E := engine)) : State (E := engine) :=
  set_rclcpp_ok false (started g).

Definition goal_other : Goal (E := engine) :=
  @mk_Goal engine "Yo" no_image false 9.

(** Three goals in a row.  The coordinator of the first is interrupted
    between resolving its goal and clearing the member, and the second
    goal arrives in between; the third arrives once the member is null.
    The coordinators of the second and the third goal then both generate,
    and the second resolves and clears. *)
Definition race : list (Action (E := engine)) :=
  [GOAL_REQUEST goal_text;
   THREAD_STEP 0;
   THREAD_STEP 0;
   GOAL_REQUEST goal_text;
   THREAD_STEP 0;
   GOAL_REQUEST goal_other;
   THREAD_STEP 1;
   THREAD_STEP 2;
   THREAD_STEP 1;
   THREAD_STEP 1].

(** A handle of another goal, for which [execute] is run while the member
    holds the handle of the first. *)
Definition stranger : GoalHandle (E := engine) := @mk_GoalHandle engine 1 goal_other.


(** Goals, a cancel request and whole runs of [execute], one after the
    other: the first goal is canceled, the third is aborted, the fifth is
    left executing, and the second, the fourth and the sixth arrive while
    another goal is active. *)
Definition serial : list (Action (E := engine)) :=
  [GOAL_REQUEST goal_text;
   GOAL_REQUEST goal_other;
   CANCEL_REQUEST (handle goal_text);
   THREAD_RUN 0;
   GOAL_REQUEST goal_tiny;
   GOAL_REQUEST goal_big;
   THREAD_RUN 1;
   GOAL_REQUEST goal_big;
   GOAL_REQUEST goal_other].

(** An image whose encoding uses symbols 62 and 63 and one padding
    character, so that the two modes of the encoder differ on it. *)
Definition marked_image : Image.t :=
  Image.mk 1 2 "rgb8" 5 [xfb; xff; xfe; xfb; xff].

Definition goal_marked : Goal (E := engine) :=
  @mk_Goal engine "Hi" marked_image false 7.

End Toy.

(** * Properties *)

(** ** Base64 *)

Section Base64Facts.

Example base64_encode_Man :
  base64_encode (list_byte_of_string "Man") 3 false = Some "TWFu"%string.
Proof. reflexivity. Qed.

Example base64_encode_Ma :
  base64_encode (list_byte_of_string "Ma") 2 false = Some "TWE="%string.
Proof. reflexivity. Qed.

Example base64_encode_M :
  base64_encode (list_byte_of_string "M") 1 false = Some "TQ=="%string.
Proof. reflexivity. Qed.

Example base64_encode_url_tail :
  base64_encode [xfb; xff] 2 true = Some "-_8."%string.
Proof. reflexivity. Qed.

Example std_decode_TWE :
  std_decode (list_ascii_of_string "TWE=") = Some (list_byte_of_string "Ma").
Proof. reflexivity. Qed.

Lemma uchar_range (b : byte) : 0 <= uchar b < 256.
Proof. destruct b; cbv; split; congruence. Qed.

Lemma byte_of_Z_uchar (b : byte) : byte_of_Z (uchar b) = b.
Proof.
  unfold byte_of_Z, uchar. rewrite N2Z.id, Byte.of_to_N. reflexivity.
Qed.

(** The masks and shifts of the encoder, as arithmetic on the byte. *)
Lemma mask_fc_shr2 (b : byte) :
  Z.shiftr (Z.land (uchar b) 0xfc) 2 = uchar b / 4.
Proof. destruct b; reflexivity. Qed.

Lemma mask_03_shl4 (b : byte) :
  Z.shiftl (Z.land (uchar b) 0x03) 4 = (uchar b mod 4) * 16.
Proof. destruct b; reflexivity. Qed.

Lemma mask_f0_shr4 (b : byte) :
  Z.shiftr (Z.land (uchar b) 0xf0) 4 = uchar b / 16.
Proof. destruct b; reflexivity. Qed.

Lemma mask_0f_shl2 (b : byte) :
  Z.shiftl (Z.land (uchar b) 0x0f) 2 = (uchar b mod 16) * 4.
Proof. destruct b; reflexivity. Qed.

Lemma mask_c0_shr6 (b : byte) :
  Z.shiftr (Z.land (uchar b) 0xc0) 6 = uchar b / 64.
Proof. destruct b; reflexivity. Qed.

Lemma mask_3f (b : byte) :
  Z.land (uchar b) 0x3f = uchar b mod 64.
Proof. destruct b; reflexivity. Qed.

Lemma uint_small (z : Z) : 0 <= z < UINT_MODULUS -> uint z = z.
Proof. intros H. unfold uint. apply Z.mod_small. exact H. Qed.

Lemma UINT_MODULUS_eq : UINT_MODULUS = 4294967296.
Proof. reflexivity. Qed.

(** A check over the 64 symbol values settles it for every value in
    range. *)
Lemma forall_below (P : Z -> bool) (n : nat) :
  forallb P (map Z.of_nat (seq 0 n)) = true ->
  forall v, 0 <= v < Z.of_nat n -> P v = true.
Proof.
  intros H v Hv. rewrite forallb_forall in H. apply H.
  apply in_map_iff. exists (Z.to_nat v). split; [lia|].
  apply in_seq. lia.
Qed.

Lemma table_std (v : Z) :
  0 <= v < 64 -> char_at (base64_chars false) v = std_symbol v.
Proof.
  intros Hv.
  apply Ascii.eqb_eq.
  apply (forall_below
           (fun v => Ascii.eqb (char_at (base64_chars false) v) (std_symbol v))
           64); [vm_compute; reflexivity | exact Hv].
Qed.

Lemma std_value_symbol (v : Z) :
  0 <= v < 64 -> std_value (std_symbol v) = Some v.
Proof.
  intros Hv.
  assert (H : (match std_value (std_symbol v) with
               | Some w => w =? v
               | None => false
               end) = true).
  { apply (forall_below
             (fun v => match std_value (std_symbol v) with
                       | Some w => w =? v
                       | None => false
                       end) 64); [vm_compute; reflexivity | exact Hv]. }
  destruct (std_value (std_symbol v)) as [w|]; [|discriminate].
  apply Z.eqb_eq in H. subst. reflexivity.
Qed.

Lemma std_symbol_not_pad (v : Z) :
  0 <= v < 64 -> is_pad (std_symbol v) = false.
Proof.
  intros Hv. apply negb_true_iff.
  apply (forall_below (fun v => negb (is_pad (std_symbol v))) 64);
    [vm_compute; reflexivity | exact Hv].
Qed.

Lemma sextet_range (k n : Z) : 0 <= sextet k n < 64.
Proof. unfold sextet. apply Z.mod_pos_bound. lia. Qed.

Section Group.

Variables a b c : Z.
Hypothesis Ha : 0 <= a < 256.
Hypothesis Hb : 0 <= b < 256.
Hypothesis Hc : 0 <= c < 256.

Lemma sextet0_group : sextet 0 (group24 a b c) = a / 4.
Proof.
  unfold sextet, group24. change (64 ^ (3 - 0)) with 262144.
  clear - Ha Hb Hc. Z.div_mod_to_equations. lia.
Qed.

Lemma sextet1_group : sextet 1 (group24 a b c) = (a mod 4) * 16 + b / 16.
Proof.
  unfold sextet, group24. change (64 ^ (3 - 1)) with 4096.
  clear - Ha Hb Hc. Z.div_mod_to_equations. lia.
Qed.

Lemma sextet2_group : sextet 2 (group24 a b c) = (b mod 16) * 4 + c / 64.
Proof.
  unfold sextet, group24. change (64 ^ (3 - 2)) with 64.
  clear - Ha Hb Hc. Z.div_mod_to_equations. lia.
Qed.

Lemma sextet3_group : sextet 3 (group24 a b c) = c mod 64.
Proof.
  unfold sextet, group24. change (64 ^ (3 - 3)) with 1.
  clear - Ha Hb Hc. Z.div_mod_to_equations. lia.
Qed.

Lemma unsextets_group :
  unsextets (sextet 0 (group24 a b c)) (sextet 1 (group24 a b c))
    (sextet 2 (group24 a b c)) (sextet 3 (group24 a b c)) = group24 a b c.
Proof.
  rewrite sextet0_group, sextet1_group, sextet2_group, sextet3_group.
  unfold unsextets, group24.
  clear - Ha Hb Hc. Z.div_mod_to_equations. lia.
Qed.

Lemma group24_octet0 : (group24 a b c / 256 ^ (2 - 0)) mod 256 = a.
Proof.
  unfold group24. change (256 ^ (2 - 0)) with 65536.
  clear - Ha Hb Hc. Z.div_mod_to_equations. lia.
Qed.

Lemma group24_octet1 : (group24 a b c / 256 ^ (2 - 1)) mod 256 = b.
Proof.
  unfold group24. change (256 ^ (2 - 1)) with 256.
  clear - Ha Hb Hc. Z.div_mod_to_equations. lia.
Qed.

Lemma group24_octet2 : (group24 a b c / 256 ^ (2 - 2)) mod 256 = c.
Proof.
  unfold group24. change (256 ^ (2 - 2)) with 1.
  clear - Ha Hb Hc. Z.div_mod_to_equations. lia.
Qed.

End Group.

Lemma at_app (pre rest : list byte) (k : Z) :
  0 <= k -> at_ (pre ++ rest) (Z.of_nat (List.length pre) + k) = at_ rest k.
Proof.
  intros Hk. unfold at_. f_equal.
  rewrite app_nth2 by lia. f_equal. lia.
Qed.

(** The symbol a group's [k]-th sextet selects in the standard table. *)
Lemma symbol0 (b0 b1 b2 : byte) :
  char_at (base64_chars false) (Z.shiftr (Z.land (uchar b0) 0xfc) 2) =
  std_symbol (sextet 0 (group24 (uchar b0) (uchar b1) (uchar b2))).
Proof.
  pose proof (uchar_range b0). pose proof (uchar_range b1).
  pose proof (uchar_range b2).
  rewrite mask_fc_shr2, sextet0_group by assumption.
  apply table_std. Z.div_mod_to_equations. lia.
Qed.

Lemma symbol1 (b0 b1 b2 : byte) :
  char_at (base64_chars false)
    (Z.shiftl (Z.land (uchar b0) 0x03) 4 + Z.shiftr (Z.land (uchar b1) 0xf0) 4) =
  std_symbol (sextet 1 (group24 (uchar b0) (uchar b1) (uchar b2))).
Proof.
  pose proof (uchar_range b0). pose proof (uchar_range b1).
  pose proof (uchar_range b2).
  rewrite mask_03_shl4, mask_f0_shr4, sextet1_group by assumption.
  apply table_std. Z.div_mod_to_equations. lia.
Qed.

Lemma symbol2 (b0 b1 b2 : byte) :
  char_at (base64_chars false)
    (Z.shiftl (Z.land (uchar b1) 0x0f) 2 + Z.shiftr (Z.land (uchar b2) 0xc0) 6) =
  std_symbol (sextet 2 (group24 (uchar b0) (uchar b1) (uchar b2))).
Proof.
  pose proof (uchar_range b0). pose proof (uchar_range b1).
  pose proof (uchar_range b2).
  rewrite mask_0f_shl2, mask_c0_shr6, sextet2_group by assumption.
  apply table_std. Z.div_mod_to_equations. lia.
Qed.

Lemma symbol3 (b0 b1 b2 : byte) :
  char_at (base64_chars false) (Z.land (uchar b2) 0x3f) =
  std_symbol (sextet 3 (group24 (uchar b0) (uchar b1) (uchar b2))).
Proof.
  pose proof (uchar_range b0). pose proof (uchar_range b1).
  pose proof (uchar_range b2).
  rewrite mask_3f, sextet3_group by assumption.
  apply table_std. Z.div_mod_to_equations. lia.
Qed.

(** With a final group of one byte the second symbol has no second byte to
    draw on; with a final group of two bytes the third has no third. *)
Lemma symbol1_tail (b0 : byte) :
  char_at (base64_chars false) (Z.shiftl (Z.land (uchar b0) 0x03) 4) =
  std_symbol (sextet 1 (group24 (uchar b0) 0 0)).
Proof.
  pose proof (uchar_range b0).
  rewrite mask_03_shl4, sextet1_group by lia.
  change (0 / 16) with 0. rewrite Z.add_0_r.
  apply table_std. Z.div_mod_to_equations. lia.
Qed.

Lemma symbol2_tail (b0 b1 : byte) :
  char_at (base64_chars false) (Z.shiftl (Z.land (uchar b1) 0x0f) 2) =
  std_symbol (sextet 2 (group24 (uchar b0) (uchar b1) 0)).
Proof.
  pose proof (uchar_range b0). pose proof (uchar_range b1).
  rewrite mask_0f_shl2, sextet2_group by lia.
  change (0 / 64) with 0. rewrite Z.add_0_r.
  apply table_std. Z.div_mod_to_equations. lia.
Qed.

Lemma symbol0_tail1 (b0 : byte) :
  char_at (base64_chars false) (Z.shiftr (Z.land (uchar b0) 0xfc) 2) =
  std_symbol (sextet 0 (group24 (uchar b0) 0 0)).
Proof. exact (symbol0 b0 x00 x00). Qed.

Lemma symbol0_tail2 (b0 b1 : byte) :
  char_at (base64_chars false) (Z.shiftr (Z.land (uchar b0) 0xfc) 2) =
  std_symbol (sextet 0 (group24 (uchar b0) (uchar b1) 0)).
Proof. exact (symbol0 b0 b1 x00). Qed.

Lemma symbol1_tail2 (b0 b1 : byte) :
  char_at (base64_chars false)
    (Z.shiftl (Z.land (uchar b0) 0x03) 4 + Z.shiftr (Z.land (uchar b1) 0xf0) 4) =
  std_symbol (sextet 1 (group24 (uchar b0) (uchar b1) 0)).
Proof. exact (symbol1 b0 b1 x00). Qed.

(** A position that is a multiple of three and inside a buffer shorter
    than [2 ^ 32] can be advanced by three without wrapping. *)
Lemma pos_no_wrap (pos in_len k : Z) :
  0 <= pos < in_len -> in_len < UINT_MODULUS -> pos mod 3 = 0 ->
  0 <= k <= 3 -> uint (pos + k) = pos + k.
Proof.
  intros Hp Hl Hm Hk. apply uint_small. rewrite UINT_MODULUS_eq in *.
  Z.div_mod_to_equations. lia.
Qed.

Section Body.

Variables (pre : list byte) (ret : list ascii).

Let pos : Z := Z.of_nat (List.length pre).

Hypothesis Hpos : pos mod 3 = 0.

Lemma body_three (b0 b1 b2 : byte) (r : list byte) :
  let bytes := pre ++ b0 :: b1 :: b2 :: r in
  let n := group24 (uchar b0) (uchar b1) (uchar b2) in
  Z.of_nat (List.length bytes) < UINT_MODULUS ->
  base64_body (base64_chars false) (trailing_char false) bytes
    (Z.of_nat (List.length bytes)) pos ret =
  ret ++ [std_symbol (sextet 0 n); std_symbol (sextet 1 n);
          std_symbol (sextet 2 n); std_symbol (sextet 3 n)].
Proof.
  intros bytes n Hlen.
  assert (Hin : Z.of_nat (List.length bytes) = pos + 3 + Z.of_nat (List.length r)).
  { unfold bytes, pos. rewrite length_app. simpl. lia. }
  unfold base64_body.
  rewrite !(pos_no_wrap pos (Z.of_nat (List.length bytes))) by (fold pos; lia).
  replace (pos + 1 <? Z.of_nat (List.length bytes)) with true
    by (symmetry; apply Z.ltb_lt; lia).
  replace (pos + 2 <? Z.of_nat (List.length bytes)) with true
    by (symmetry; apply Z.ltb_lt; lia).
  unfold bytes, pos. rewrite !at_app by lia.
  unfold at_. simpl nth.
  rewrite (symbol0 b0 b1 b2), (symbol1 b0 b1 b2), (symbol2 b0 b1 b2),
    (symbol3 b0 b1 b2).
  unfold push_back. rewrite <- !app_assoc. reflexivity.
Qed.

Lemma body_two (b0 b1 : byte) :
  let bytes := pre ++ [b0; b1] in
  let n := group24 (uchar b0) (uchar b1) 0 in
  Z.of_nat (List.length bytes) < UINT_MODULUS ->
  base64_body (base64_chars false) (trailing_char false) bytes
    (Z.of_nat (List.length bytes)) pos ret =
  ret ++ [std_symbol (sextet 0 n); std_symbol (sextet 1 n);
          std_symbol (sextet 2 n); pad].
Proof.
  intros bytes n Hlen.
  assert (Hin : Z.of_nat (List.length bytes) = pos + 2).
  { unfold bytes, pos. rewrite length_app. simpl. lia. }
  unfold base64_body.
  rewrite !(pos_no_wrap pos (Z.of_nat (List.length bytes))) by (fold pos; lia).
  replace (pos + 1 <? Z.of_nat (List.length bytes)) with true
    by (symmetry; apply Z.ltb_lt; lia).
  replace (pos + 2 <? Z.of_nat (List.length bytes)) with false
    by (symmetry; apply Z.ltb_ge; lia).
  unfold bytes, pos. rewrite !at_app by lia.
  unfold at_. simpl nth.
  rewrite (symbol0_tail2 b0 b1), (symbol1_tail2 b0 b1), (symbol2_tail b0 b1).
  unfold push_back. rewrite <- !app_assoc. reflexivity.
Qed.

Lemma body_one (b0 : byte) :
  let bytes := pre ++ [b0] in
  let n := group24 (uchar b0) 0 0 in
  Z.of_nat (List.length bytes) < UINT_MODULUS ->
  base64_body (base64_chars false) (trailing_char false) bytes
    (Z.of_nat (List.length bytes)) pos ret =
  ret ++ [std_symbol (sextet 0 n); std_symbol (sextet 1 n); pad; pad].
Proof.
  intros bytes n Hlen.
  assert (Hin : Z.of_nat (List.length bytes) = pos + 1).
  { unfold bytes, pos. rewrite length_app. simpl. lia. }
  unfold base64_body.
  rewrite !(pos_no_wrap pos (Z.of_nat (List.length bytes))) by (fold pos; lia).
  replace (pos + 1 <? Z.of_nat (List.length bytes)) with false
    by (symmetry; apply Z.ltb_ge; lia).
  unfold bytes, pos. rewrite !at_app by lia.
  unfold at_. simpl nth.
  rewrite (symbol0_tail1 b0), (symbol1_tail b0).
  unfold push_back. rewrite <- !app_assoc. reflexivity.
Qed.

End Body.

Lemma base64_loop_exit (fuel : nat) (chars : string) (trailing : ascii)
    (bytes : list byte) (in_len pos : Z) (ret : list ascii) :
  in_len <= pos ->
  base64_loop (S fuel) chars trailing bytes in_len pos ret = Some ret.
Proof.
  intros H. simpl.
  replace (pos <? in_len) with false by (symmetry; apply Z.ltb_ge; lia).
  reflexivity.
Qed.

(** The loop invariant: with [pos] bytes consumed, a multiple of three,
    the loop appends the standard encoding of the bytes that remain. *)
Lemma base64_loop_std (fuel : nat) :
  forall (pre rest : list byte) (ret : list ascii),
    Z.of_nat (List.length (pre ++ rest)) < UINT_MODULUS ->
    Z.of_nat (List.length pre) mod 3 = 0 ->
    Z.of_nat (List.length rest) + 2 < 3 * Z.of_nat fuel ->
    base64_loop fuel (base64_chars false) (trailing_char false) (pre ++ rest)
      (Z.of_nat (List.length (pre ++ rest))) (Z.of_nat (List.length pre)) ret =
    Some (ret ++ std_encode rest).
Proof.
  induction fuel as [|fuel IH]; intros pre rest ret Hlen Hmod Hfuel.
  - lia.
  - destruct rest as [|b0 [|b1 [|b2 r]]].
    + rewrite base64_loop_exit by (rewrite app_nil_r; lia).
      simpl. rewrite app_nil_r. reflexivity.
    + assert (Hin : Z.of_nat (List.length (pre ++ [b0])) =
                    Z.of_nat (List.length pre) + 1)
        by (rewrite length_app; simpl; lia).
      cbn [base64_loop].
      replace (Z.of_nat (List.length pre) <? Z.of_nat (List.length (pre ++ [b0])))
        with true by (symmetry; apply Z.ltb_lt; lia).
      rewrite body_one by assumption.
      rewrite (pos_no_wrap _ (Z.of_nat (List.length (pre ++ [b0])))) by lia.
      destruct fuel as [|fuel]; [simpl in Hfuel; lia|].
      rewrite base64_loop_exit by lia. reflexivity.
    + assert (Hin : Z.of_nat (List.length (pre ++ [b0; b1])) =
                    Z.of_nat (List.length pre) + 2)
        by (rewrite length_app; simpl; lia).
      cbn [base64_loop].
      replace (Z.of_nat (List.length pre) <?
               Z.of_nat (List.length (pre ++ [b0; b1])))
        with true by (symmetry; apply Z.ltb_lt; lia).
      rewrite body_two by assumption.
      rewrite (pos_no_wrap _ (Z.of_nat (List.length (pre ++ [b0; b1])))) by lia.
      destruct fuel as [|fuel]; [simpl in Hfuel; lia|].
      rewrite base64_loop_exit by lia. reflexivity.
    + assert (Hin : Z.of_nat (List.length (pre ++ b0 :: b1 :: b2 :: r)) =
                    Z.of_nat (List.length pre) + 3 + Z.of_nat (List.length r))
        by (rewrite length_app; simpl; lia).
      cbn [base64_loop].
      replace (Z.of_nat (List.length pre) <?
               Z.of_nat (List.length (pre ++ b0 :: b1 :: b2 :: r)))
        with true by (symmetry; apply Z.ltb_lt; lia).
      rewrite body_three by assumption.
      rewrite (pos_no_wrap _ (Z.of_nat (List.length (pre ++ b0 :: b1 :: b2 :: r))))
        by lia.
      assert (Heq : pre ++ b0 :: b1 :: b2 :: r = (pre ++ [b0; b1; b2]) ++ r)
        by (rewrite <- app_assoc; reflexivity).
      assert (Hpre : Z.of_nat (List.length pre) + 3 =
                     Z.of_nat (List.length (pre ++ [b0; b1; b2])))
        by (rewrite length_app; simpl; lia).
      rewrite Hpre, Heq.
      rewrite IH.
      * rewrite <- app_assoc. reflexivity.
      * rewrite <- Heq. exact Hlen.
      * rewrite <- Hpre. rewrite Z.add_mod, Hmod by lia. reflexivity.
      * simpl List.length in Hfuel. lia.
Qed.

(** Below [2 ^ 32] bytes the encoder returns, and what it returns is the
    standard encoding. *)
Lemma base64_encode_std (bytes : list byte) :
  Z.of_nat (List.length bytes) < UINT_MODULUS ->
  base64_encode bytes (Z.of_nat (List.length bytes)) false =
  Some (string_of_list_ascii (std_encode bytes)).
Proof.
  intros Hlen. unfold base64_encode, base64_encode_fuel.
  rewrite (base64_loop_std _ [] bytes []); [reflexivity | exact Hlen | reflexivity |].
  rewrite Nat2Z.id. lia.
Qed.

(** Induction over a buffer three bytes at a time. *)
Lemma list_ind3 (A : Type) (P : list A -> Prop) :
  P [] -> (forall a, P [a]) -> (forall a b, P [a; b]) ->
  (forall a b c l, P l -> P (a :: b :: c :: l)) ->
  forall l, P l.
Proof.
  intros H0 H1 H2 H3.
  fix IH 1. intros [|a [|b [|c l]]].
  - exact H0.
  - apply H1.
  - apply H2.
  - apply H3. apply IH.
Qed.

Lemma octet_group (b0 b1 b2 : byte) :
  let n := group24 (uchar b0) (uchar b1) (uchar b2) in
  octet 0 n = b0 /\ octet 1 n = b1 /\ octet 2 n = b2.
Proof.
  pose proof (uchar_range b0). pose proof (uchar_range b1).
  pose proof (uchar_range b2).
  unfold octet. cbv zeta.
  rewrite group24_octet0, group24_octet1, group24_octet2 by assumption.
  rewrite !byte_of_Z_uchar. auto.
Qed.

Lemma std_decode_encode (bytes : list byte) :
  std_decode (std_encode bytes) = Some bytes.
Proof.
  induction bytes as [|b0|b0 b1|b0 b1 b2 r IH] using list_ind3.
  - reflexivity.
  - pose proof (uchar_range b0) as H0.
    cbn [std_encode std_decode].
    rewrite !std_value_symbol by apply sextet_range.
    change (is_pad pad) with true. cbv iota.
    pose proof (unsextets_group (uchar b0) 0 0 H0 ltac:(lia) ltac:(lia)) as Hu.
    rewrite (sextet2_group (uchar b0) 0 0), (sextet3_group (uchar b0) 0 0)
      in Hu by lia.
    change (0 mod 16 * 4 + 0 / 64) with 0 in Hu.
    change (0 mod 64) with 0 in Hu.
    rewrite Hu.
    pose proof (octet_group b0 x00 x00) as Ho. cbv zeta in Ho.
    change (uchar x00) with 0 in Ho.
    destruct Ho as [-> _]. reflexivity.
  - pose proof (uchar_range b0) as H0. pose proof (uchar_range b1) as H1.
    cbn [std_encode std_decode].
    rewrite !std_value_symbol by apply sextet_range.
    change (is_pad pad) with true. cbv iota.
    rewrite std_symbol_not_pad by apply sextet_range.
    pose proof (unsextets_group (uchar b0) (uchar b1) 0 H0 H1 ltac:(lia)) as Hu.
    rewrite (sextet3_group (uchar b0) (uchar b1) 0) in Hu by lia.
    change (0 mod 64) with 0 in Hu.
    rewrite Hu.
    pose proof (octet_group b0 b1 x00) as Ho. cbv zeta in Ho.
    change (uchar x00) with 0 in Ho.
    destruct Ho as (-> & -> & _). reflexivity.
  - pose proof (uchar_range b0) as H0. pose proof (uchar_range b1) as H1.
    pose proof (uchar_range b2) as H2.
    cbn [std_encode std_decode].
    rewrite !std_value_symbol by apply sextet_range.
    rewrite std_symbol_not_pad by apply sextet_range.
    rewrite IH.
    rewrite unsextets_group by assumption.
    destruct (octet_group b0 b1 b2) as (-> & -> & ->). reflexivity.
Qed.

Lemma std_encode_length (bytes : list byte) :
  Z.of_nat (List.length (std_encode bytes)) =
  (Z.of_nat (List.length bytes) + 2) / 3 * 4.
Proof.
  induction bytes as [|b0|b0 b1|b0 b1 b2 r IH] using list_ind3;
    try reflexivity.
  cbn [std_encode List.length]. rewrite !Nat2Z.inj_succ, IH.
  Z.div_mod_to_equations. lia.
Qed.

Lemma padding_count_step (n : Z) : padding_count (n + 3) = padding_count n.
Proof.
  unfold padding_count.
  replace (n + 3) with (n + 1 * 3) by lia. rewrite Z.mod_add by lia.
  reflexivity.
Qed.

(** The padding of the standard encoding: it is a run of
    [(3 - len % 3) % 3] characters [=] at the end, after symbols of the
    alphabet only. *)
Lemma std_encode_padding (bytes : list byte) :
  exists symbols,
    std_encode bytes =
    symbols ++ repeat pad (Z.to_nat (padding_count (Z.of_nat (List.length bytes)))) /\
    Forall (fun c => exists v, 0 <= v < 64 /\ c = std_symbol v) symbols.
Proof.
  induction bytes as [|b0|b0 b1|b0 b1 b2 r IH] using list_ind3.
  - exists []. split; [reflexivity | constructor].
  - eexists [_; _]. split; [reflexivity|].
    repeat constructor; eexists; (split; [apply sextet_range | reflexivity]).
  - eexists [_; _; _]. split; [reflexivity|].
    repeat constructor; eexists; (split; [apply sextet_range | reflexivity]).
  - destruct IH as (symbols & Heq & Hall).
    eexists (_ :: _ :: _ :: _ :: symbols). split.
    + cbn [std_encode]. rewrite Heq.
      replace (Z.of_nat (List.length (b0 :: b1 :: b2 :: r)))
        with (Z.of_nat (List.length r) + 3) by (simpl List.length; lia).
      rewrite padding_count_step. reflexivity.
    + repeat constructor;
        try (eexists; (split; [apply sextet_range | reflexivity])).
      exact Hall.
Qed.

(** *** The URL mode *)

Lemma table_url (v : Z) :
  0 <= v < 64 ->
  char_at (base64_chars true) v = url_char (char_at (base64_chars false) v).
Proof.
  intros Hv. apply Ascii.eqb_eq.
  apply (forall_below
           (fun v => Ascii.eqb (char_at (base64_chars true) v)
                       (url_char (char_at (base64_chars false) v))) 64);
    [vm_compute; reflexivity | exact Hv].
Qed.

Lemma index0_range (a : byte) :
  0 <= Z.shiftr (Z.land (uchar a) 0xfc) 2 < 64.
Proof.
  pose proof (uchar_range a). rewrite mask_fc_shr2.
  Z.div_mod_to_equations. lia.
Qed.

Lemma index1_range (a b : byte) :
  0 <= Z.shiftl (Z.land (uchar a) 0x03) 4 + Z.shiftr (Z.land (uchar b) 0xf0) 4 < 64.
Proof.
  pose proof (uchar_range a). pose proof (uchar_range b).
  rewrite mask_03_shl4, mask_f0_shr4. Z.div_mod_to_equations. lia.
Qed.

Lemma index2_range (a b : byte) :
  0 <= Z.shiftl (Z.land (uchar a) 0x0f) 2 + Z.shiftr (Z.land (uchar b) 0xc0) 6 < 64.
Proof.
  pose proof (uchar_range a). pose proof (uchar_range b).
  rewrite mask_0f_shl2, mask_c0_shr6. Z.div_mod_to_equations. lia.
Qed.

Lemma index3_range (a : byte) : 0 <= Z.land (uchar a) 0x3f < 64.
Proof.
  pose proof (uchar_range a). rewrite mask_3f.
  Z.div_mod_to_equations. lia.
Qed.

Lemma index1_tail_range (a : byte) :
  0 <= Z.shiftl (Z.land (uchar a) 0x03) 4 < 64.
Proof.
  pose proof (uchar_range a). rewrite mask_03_shl4.
  Z.div_mod_to_equations. lia.
Qed.

Lemma index2_tail_range (a : byte) :
  0 <= Z.shiftl (Z.land (uchar a) 0x0f) 2 < 64.
Proof.
  pose proof (uchar_range a). rewrite mask_0f_shl2.
  Z.div_mod_to_equations. lia.
Qed.

Lemma base64_body_url (bytes : list byte) (in_len pos : Z) (ret : list ascii) :
  base64_body (base64_chars true) (trailing_char true) bytes in_len pos
    (map url_char ret) =
  map url_char
    (base64_body (base64_chars false) (trailing_char false) bytes in_len pos ret).
Proof.
  unfold base64_body, push_back, at_.
  destruct (uint (pos + 1) <? in_len); [destruct (uint (pos + 2) <? in_len)|];
    rewrite !map_app; cbn [map];
    rewrite ?(table_url _ (index0_range _)), ?(table_url _ (index1_range _ _)),
      ?(table_url _ (index2_range _ _)), ?(table_url _ (index3_range _)),
      ?(table_url _ (index1_tail_range _)), ?(table_url _ (index2_tail_range _));
    reflexivity.
Qed.

Lemma base64_loop_url (fuel : nat) :
  forall (bytes : list byte) (in_len pos : Z) (ret : list ascii),
    base64_loop fuel (base64_chars true) (trailing_char true) bytes in_len pos
      (map url_char ret) =
    option_map (map url_char)
      (base64_loop fuel (base64_chars false) (trailing_char false) bytes in_len
         pos ret).
Proof.
  induction fuel as [|fuel IH]; intros bytes in_len pos ret; [reflexivity|].
  cbn [base64_loop]. destruct (pos <? in_len); [|reflexivity].
  rewrite base64_body_url. apply IH.
Qed.

(** *** Buffers of [2 ^ 32] bytes and more *)

Lemma uint_range (z : Z) : 0 <= uint z < UINT_MODULUS.
Proof. unfold uint. apply Z.mod_pos_bound. reflexivity. Qed.

(** [pos] never leaves the range of [unsigned int], so it stays below an
    [in_len] of [2 ^ 32] or more and the loop condition never fails. *)
Lemma base64_loop_diverges (fuel : nat) :
  forall (chars : string) (trailing : ascii) (bytes : list byte)
         (in_len pos : Z) (ret : list ascii),
    UINT_MODULUS <= in_len -> 0 <= pos < UINT_MODULUS ->
    base64_loop fuel chars trailing bytes in_len pos ret = None.
Proof.
  induction fuel as [|fuel IH]; intros chars trailing bytes in_len pos ret Hl Hp;
    [reflexivity|].
  cbn [base64_loop].
  replace (pos <? in_len) with true by (symmetry; apply Z.ltb_lt; lia).
  apply IH; [exact Hl | apply uint_range].
Qed.

Lemma base64_encode_fuel_diverges (fuel : nat) (bytes : list byte)
    (in_len : Z) (url : bool) :
  UINT_MODULUS <= in_len -> base64_encode_fuel fuel bytes in_len url = None.
Proof.
  intros Hl. unfold base64_encode_fuel.
  rewrite base64_loop_diverges; [reflexivity | exact Hl |].
  rewrite UINT_MODULUS_eq. lia.
Qed.

Lemma string_of_list_ascii_length (l : list ascii) :
  String.length (string_of_list_ascii l) = List.length l.
Proof. induction l as [|c l IH]; simpl; congruence. Qed.

(** X1.  Below [2 ^ 32] bytes [base64_encode] in standard mode is exact
    standard base64: it returns, its output is the standard encoding group by
    group, has the reserved length, ends in [(3 - len % 3) % 3] padding
    characters after alphabet symbols only, and decodes to the buffer. *)
Theorem base64_encode_standard_below_4GiB (bytes : list byte) :
  Z.of_nat (List.length bytes) < UINT_MODULUS ->
  exists out symbols,
    base64_encode bytes (Z.of_nat (List.length bytes)) false = Some out /\
    list_ascii_of_string out = std_encode bytes /\
    Z.of_nat (String.length out) = len_encoded (Z.of_nat (List.length bytes)) /\
    list_ascii_of_string out =
      symbols ++
      repeat pad (Z.to_nat (padding_count (Z.of_nat (List.length bytes)))) /\
    Forall (fun c => exists v, 0 <= v < 64 /\ c = std_symbol v) symbols /\
    std_decode (list_ascii_of_string out) = Some bytes.
Proof.
  intros Hlen.
  destruct (std_encode_padding bytes) as (symbols & Hpad & Hall).
  exists (string_of_list_ascii (std_encode bytes)), symbols.
  rewrite list_ascii_of_string_of_list_ascii.
  repeat split.
  - apply base64_encode_std. exact Hlen.
  - rewrite string_of_list_ascii_length, std_encode_length.
    unfold len_encoded, size_t.
    rewrite UINT_MODULUS_eq in Hlen.
    rewrite (Z.mod_small (Z.of_nat (List.length bytes) + 2))
      by (change SIZE_MODULUS with 18446744073709551616; lia).
    rewrite Z.mod_small; [reflexivity|].
    change SIZE_MODULUS with 18446744073709551616.
    Z.div_mod_to_equations. lia.
  - exact Hpad.
  - exact Hall.
  - apply std_decode_encode.
Qed.

Lemma base64_encode_standard_below_4GiB_witness :
  Z.of_nat (List.length (list_byte_of_string "Ma")) < UINT_MODULUS /\
  exists out symbols,
    base64_encode (list_byte_of_string "Ma")
      (Z.of_nat (List.length (list_byte_of_string "Ma"))) false = Some out /\
    list_ascii_of_string out = std_encode (list_byte_of_string "Ma") /\
    Z.of_nat (String.length out) =
      len_encoded (Z.of_nat (List.length (list_byte_of_string "Ma"))) /\
    list_ascii_of_string out =
      symbols ++
      repeat pad
        (Z.to_nat
           (padding_count (Z.of_nat (List.length (list_byte_of_string "Ma"))))) /\
    Forall (fun c => exists v, 0 <= v < 64 /\ c = std_symbol v) symbols /\
    std_decode (list_ascii_of_string out) = Some (list_byte_of_string "Ma").
Proof.
  split; [reflexivity|].
  apply (base64_encode_standard_below_4GiB (list_byte_of_string "Ma")).
  reflexivity.
Defined.

(** C3.  For every byte buffer the standard mode of [base64_encode] is
    claimed to produce exact standard base64 that decodes to the buffer.
    On a buffer of [2 ^ 32] bytes (a length [size_t in_len] can carry) the
    [unsigned int pos] of the loop stays below [in_len] for ever: whatever
    the fuel, the loop has not left, and [base64_encode] returns no string
    at all. *)
Theorem base64_encode_4GiB_never_returns :
  let buf := repeat x00 (Z.to_nat UINT_MODULUS) in
  Z.of_nat (List.length buf) = UINT_MODULUS /\
  (forall fuel,
     base64_encode_fuel fuel buf (Z.of_nat (List.length buf)) false = None) /\
  base64_encode buf (Z.of_nat (List.length buf)) false = None.
Proof.
  intros buf.
  assert (Hlen : Z.of_nat (List.length buf) = UINT_MODULUS).
  { unfold buf. rewrite repeat_length. apply Z2Nat.id.
    rewrite UINT_MODULUS_eq. lia. }
  split; [exact Hlen|]. split.
  - intros fuel. apply base64_encode_fuel_diverges. rewrite Hlen. lia.
  - unfold base64_encode. apply base64_encode_fuel_diverges. rewrite Hlen. lia.
Qed.

(** The URL mode of the encoder.  Symbols 62 and 63 are [-] and
    [_] and the trailing character is [.], not [=]; the output of the URL
    mode is the output of the standard mode with exactly these three
    characters exchanged, for every buffer, length and amount of fuel. *)
Lemma base64_encode_url_mode :
  char_at (base64_chars true) 62 = "-"%char /\
  char_at (base64_chars true) 63 = "_"%char /\
  trailing_char true = "."%char /\
  trailing_char false = "="%char /\
  (forall v, 0 <= v < 62 ->
     char_at (base64_chars true) v = char_at (base64_chars false) v) /\
  (forall fuel bytes in_len,
     base64_encode_fuel fuel bytes in_len true =
     option_map url_variant (base64_encode_fuel fuel bytes in_len false)).
Proof.
  repeat split.
  - intros v Hv. apply Ascii.eqb_eq.
    apply (forall_below
             (fun v => Ascii.eqb (char_at (base64_chars true) v)
                         (char_at (base64_chars false) v)) 62);
      [vm_compute; reflexivity | lia].
  - intros fuel bytes in_len. unfold base64_encode_fuel.
    change (@nil ascii) with (map url_char []) at 1.
    rewrite base64_loop_url.
    destruct (base64_loop fuel (base64_chars false) (trailing_char false)
                bytes in_len 0 []) as [out|]; [|reflexivity].
    cbn [option_map]. unfold url_variant.
    rewrite list_ascii_of_string_of_list_ascii. reflexivity.
Qed.

End Base64Facts.

(** ** The node *)

Section MonadFacts.

Context {S : Type}.

Lemma bind_ret (A B : Type) (a : A) (k : A -> M S B) (s : S) :
  bind (ret a) k s = k a s.
Proof. reflexivity. Qed.

Lemma bind_get (A B : Type) (proj : S -> A) (k : A -> M S B) (s : S) :
  bind (get proj) k s = k (proj s) s.
Proof. reflexivity. Qed.

Lemma bind_modify (B : Type) (f : S -> S) (k : unit -> M S B) (s : S) :
  bind (modify f) k s = k tt (f s).
Proof. reflexivity. Qed.

Lemma bind_fail (A B : Type) (f : Fault) (k : A -> M S B) (s : S) :
  bind (fail f) k s = inl f.
Proof. reflexivity. Qed.

Lemma bind_bind (A B C : Type) (m : M S A) (k1 : A -> M S B)
    (k2 : B -> M S C) (s : S) :
  bind (bind m k1) k2 s = bind m (fun a => bind (k1 a) k2) s.
Proof. unfold bind. destruct (m s) as [f|[a s1]]; reflexivity. Qed.

Lemma bind_run (A B : Type) (m : M S A) (k : A -> M S B) (s s1 : S) (a : A) :
  m s = inr (a, s1) -> bind m k s = k a s1.
Proof. intros H. unfold bind. rewrite H. reflexivity. Qed.

Lemma run_ret (A : Type) (a : A) (s : S) : ret a s = inr (a, s).
Proof. reflexivity. Qed.

Lemma run_get (A : Type) (proj : S -> A) (s : S) : get proj s = inr (proj s, s).
Proof. reflexivity. Qed.

Lemma run_modify (f : S -> S) (s : S) : modify f s = inr (tt, f s).
Proof. reflexivity. Qed.

Lemma run_fail (A : Type) (f : Fault) (s : S) : @fail S A f s = inl f.
Proof. reflexivity. Qed.

Lemma final_run (A : Type) (m : M S A) (s : S) (a : A) :
  value (m s) = Some a -> m s = inr (a, final m s).
Proof.
  unfold value, final. destruct (m s) as [f|[a' s']]; [discriminate|].
  intros H. inversion H. reflexivity.
Qed.

End MonadFacts.

(** Running a method symbolically, one call at a time. *)
Ltac mstep :=
  first [ rewrite bind_bind | rewrite bind_ret | rewrite bind_get
        | rewrite bind_modify | rewrite bind_fail
        | rewrite run_ret | rewrite run_get | rewrite run_modify
        | rewrite run_fail ];
  cbv beta.

(** Reading a field of an updated state. *)
Ltac fields :=
  cbn [log log_all set_llava set_gpt_params set_status set_goal_handle_
       set_rclcpp_ok set_threads set_next_uuid
       goal_handle_ llava gpt_params status rclcpp_ok threads next_uuid trace
       fst snd].

Tactic Notation "fields" "in" hyp(H) :=
  cbn [log log_all set_llava set_gpt_params set_status set_goal_handle_
       set_rclcpp_ok set_threads set_next_uuid
       goal_handle_ llava gpt_params status rclcpp_ok threads next_uuid trace
       fst snd] in H.

Ltac mrun := repeat mstep; fields.

(** Two results that returned the same value in states equal field by
    field. *)
Ltac same_state lem :=
  apply (f_equal (@inr Fault _)); apply f_equal; apply lem; fields;
  rewrite <- ?app_assoc; reflexivity.

Section NodeFacts.

Context {E : Engine}.

Local Open Scope monad_scope.

(** *** Bookkeeping on states and traces *)

Lemma state_ext (s1 s2 : State) :
  goal_handle_ s1 = goal_handle_ s2 -> llava s1 = llava s2 ->
  gpt_params s1 = gpt_params s2 -> status s1 = status s2 ->
  rclcpp_ok s1 = rclcpp_ok s2 -> threads s1 = threads s2 ->
  next_uuid s1 = next_uuid s2 -> trace s1 = trace s2 -> s1 = s2.
Proof.
  destruct s1, s2. cbn [goal_handle_ llava gpt_params status rclcpp_ok threads
                         next_uuid trace].
  intros; subst; reflexivity.
Qed.

Lemma log_all_nil (s : State) : log_all [] s = s.
Proof. destruct s. unfold log_all. fields. rewrite app_nil_r. reflexivity. Qed.

Lemma log_all_app (evs1 evs2 : list Event) (s : State) :
  log_all evs2 (log_all evs1 s) = log_all (evs1 ++ evs2) s.
Proof. unfold log_all. fields. rewrite app_assoc. reflexivity. Qed.

Lemma events_since_app (s s' : State) (evs : list Event) :
  trace s' = trace s ++ evs -> events_since s s' = evs.
Proof.
  intros H. unfold events_since. rewrite H.
  rewrite skipn_app, skipn_all, Nat.sub_diag. reflexivity.
Qed.

Lemma string_app_assoc (a b c : string) :
  ((a ++ b) ++ c)%string = (a ++ (b ++ c))%string.
Proof. induction a as [|x a IH]; simpl; congruence. Qed.

Lemma string_app_nil_r (a : string) : (a ++ EmptyString)%string = a.
Proof. induction a as [|x a IH]; simpl; congruence. Qed.

(** *** The streaming emitter *)

Lemma push_probs_map (probs : list token_prob) (m : TokenProbArray.t) :
  push_probs probs m =
  TokenProbArray.mk (TokenProbArray.chosen_token m)
    (TokenProbArray.data m ++ map to_TokenProb probs).
Proof.
  unfold push_probs. revert m.
  induction probs as [|p probs IH]; intros m.
  - destruct m. cbn. rewrite app_nil_r. reflexivity.
  - cbn [fold_left map]. rewrite IH. cbn.
    rewrite <- app_assoc. reflexivity.
Qed.

Lemma send_text_run (c : completion_output) (s : State) :
  send_text c s =
  inr (tt, log_all (feedback_events (goal_handle_ s) [c]) s).
Proof.
  unfold send_text, this_goal_handle_, publish_feedback, feedback_events.
  mstep. destruct (goal_handle_ s) as [gh|] eqn:Hgh.
  - mstep. mstep. rewrite Hgh. mrun. reflexivity.
  - mrun. rewrite log_all_nil. reflexivity.
Qed.

Lemma for_each_send_text (units : list completion_output) :
  forall s,
    for_each units send_text s =
    inr (tt, log_all (feedback_events (goal_handle_ s) units) s).
Proof.
  induction units as [|c units IH]; intros s.
  - cbn [for_each]. mrun. unfold feedback_events.
    destruct (goal_handle_ s); cbn [map]; rewrite log_all_nil; reflexivity.
  - cbn [for_each]. rewrite (bind_run _ _ _ _ _ _ _ (send_text_run c s)).
    rewrite IH, log_all_app. fields.
    unfold feedback_events. destruct (goal_handle_ s); reflexivity.
Qed.

Lemma generate_response_send_text (p : string) (flag : bool) (s : State) :
  let units := fst (llava_generate p flag (gpt_params s) (llava s)) in
  let l' := snd (llava_generate p flag (gpt_params s) (llava s)) in
  generate_response p flag send_text s =
  inr (units,
       log_all (ev_generate_response p :: feedback_events (goal_handle_ s) units)
         (set_llava l' s)).
Proof.
  cbv zeta. unfold generate_response. mrun.
  rewrite (bind_run _ _ _ _ _ _ _ (for_each_send_text _ _)). mrun.
  unfold log_all. fields. rewrite <- app_assoc. reflexivity.
Qed.

(** *** The aggregation loop *)

Lemma aggregate_fold (units : list completion_output) :
  forall r,
    fold_left aggregate units r =
    mk_Result
      (Response.mk
         (Response.text (response r) ++ detokenized_text units)%string
         (Response.tokens (response r) ++ map co_token units)
         (Response.probs (response r) ++
          map (fun c => TokenProbArray.mk 0 (alternates c)) units)).
Proof.
  induction units as [|c units IH]; intros r.
  - destruct r as [[t ts ps]]. cbn.
    rewrite string_app_nil_r, !app_nil_r. reflexivity.
  - cbn [fold_left]. rewrite IH. unfold aggregate. cbn.
    rewrite push_probs_map. cbn.
    rewrite string_app_assoc, <- !app_assoc. reflexivity.
Qed.

Lemma aggregate_all (units : list completion_output) :
  fold_left aggregate units (mk_Result Response.empty) = aggregated units.
Proof. rewrite aggregate_fold. reflexivity. Qed.

(** *** The image step *)

Lemma execute_setup_no_image (gh : GoalHandle) (s : State) :
  List.length (Image.data (image (get_goal gh))) = O ->
  let g := get_goal gh in
  let l1 := reset_engine g (llava s) in
  let n_vocab := llava_get_n_vocab l1 in
  let eos := llava_get_token_eos l1 in
  execute_setup gh s =
  inr (true,
       mk_State (goal_handle_ s) (llava_free_image l1)
         (update_sampling_params (sampling_config g) n_vocab eos (gpt_params s))
         (status s) (rclcpp_ok s) (threads s) (next_uuid s)
         (trace s ++ reset_events g ++
            [ev_update_sampling_params n_vocab eos; ev_free_image])).
Proof.
  intros Hlen. cbv zeta.
  unfold execute_setup, reset_events, reset_engine,
    update_sampling_params_call, llava_reset_call, llava_free_image_call.
  rewrite Hlen. change (0 <? Z.of_nat 0) with false. cbv iota.
  destruct (reset (get_goal gh)); mrun; same_state state_ext.
Qed.

Lemma execute_setup_image (gh : GoalHandle) (s : State) (buf : list byte)
    (encoded : string) :
  let g := get_goal gh in
  let l1 := reset_engine g (llava s) in
  let n_vocab := llava_get_n_vocab l1 in
  let eos := llava_get_token_eos l1 in
  let loaded := fst (llava_load_image encoded l1) in
  (0 < List.length (Image.data (image g)))%nat ->
  cv_imencode_jpg (image g) = Some buf ->
  base64_encode buf (Z.of_nat (List.length buf)) false = Some encoded ->
  execute_setup gh s =
  inr (loaded,
       mk_State (goal_handle_ s) (snd (llava_load_image encoded l1))
         (update_sampling_params (sampling_config g) n_vocab eos (gpt_params s))
         (status s) (rclcpp_ok s) (threads s) (next_uuid s)
         (trace s ++ reset_events g ++
            [ev_update_sampling_params n_vocab eos;
             ev_cv_imencode (image g);
             ev_base64_encode (Z.of_nat (List.length buf)) false;
             ev_load_image encoded loaded])).
Proof.
  cbv zeta. intros Hlen Hcv Hb64.
  unfold execute_setup, encode_image, reset_events, reset_engine,
    update_sampling_params_call, llava_reset_call, llava_load_image_call,
    base64_encode_default_url in *.
  replace (0 <? Z.of_nat (List.length (Image.data (image (get_goal gh)))))
    with true by (symmetry; apply Z.ltb_lt; lia).
  rewrite Hcv.
  destruct (reset (get_goal gh)); mrun; rewrite Hb64; mrun;
    same_state state_ext.
Qed.

(** The image step leaves the goal handles, the member and the process
    flags alone and only adds to the trace. *)
Lemma frame_refl (s : State) : frame s s.
Proof. repeat split. exists []. rewrite app_nil_r. reflexivity. Qed.

Lemma frame_trans (s1 s2 s3 : State) : frame s1 s2 -> frame s2 s3 -> frame s1 s3.
Proof.
  intros (H1 & H2 & H3 & H4 & H5 & e1 & H6) (K1 & K2 & K3 & K4 & K5 & e2 & K6).
  repeat split; try congruence.
  exists (e1 ++ e2). rewrite K6, H6, app_assoc. reflexivity.
Qed.

Section Preserves.

Variable R : State -> State -> Prop.
Hypothesis R_refl : forall s, R s s.
Hypothesis R_trans : forall s1 s2 s3, R s1 s2 -> R s2 s3 -> R s1 s3.

Lemma preserves_ret (A : Type) (a : A) : preserves R (ret a).
Proof. intros s a' s1 H. inversion H. apply R_refl. Qed.

Lemma preserves_fail (A : Type) (f : Fault) : preserves R (@fail State A f).
Proof. intros s a s1 H. discriminate H. Qed.

Lemma preserves_get (A : Type) (proj : State -> A) : preserves R (get proj).
Proof. intros s a s1 H. inversion H. apply R_refl. Qed.

Lemma preserves_modify (f : State -> State) :
  (forall s, R s (f s)) -> preserves R (modify f).
Proof. intros Hf s a s1 H. inversion H. apply Hf. Qed.

Lemma preserves_bind (A B : Type) (m : M State A) (k : A -> M State B) :
  preserves R m -> (forall a, preserves R (k a)) -> preserves R (bind m k).
Proof.
  intros Hm Hk s b s2 H. unfold bind in H.
  destruct (m s) as [f|[a s1]] eqn:Hms; [discriminate H|].
  eapply R_trans; [eapply Hm; exact Hms | eapply Hk; exact H].
Qed.

Lemma preserves_if (A : Type) (b : bool) (m1 m2 : M State A) :
  preserves R m1 -> preserves R m2 -> preserves R (if b then m1 else m2).
Proof. destruct b; auto. Qed.

Lemma preserves_for_each (A : Type) (xs : list A) (body : A -> M State unit) :
  (forall x, preserves R (body x)) -> preserves R (for_each xs body).
Proof.
  intros Hbody. induction xs as [|x xs IH]; cbn [for_each].
  - apply preserves_ret.
  - apply preserves_bind; [apply Hbody | intros _; exact IH].
Qed.

End Preserves.

Lemma frame_log (e : Event) (s : State) : frame s (log e s).
Proof. repeat split. exists [e]. reflexivity. Qed.

Lemma frame_set_llava (l : Llava) (s : State) : frame s (set_llava l s).
Proof. repeat split. exists []. fields. rewrite app_nil_r. reflexivity. Qed.

Lemma frame_set_gpt_params (v : GptParams) (s : State) :
  frame s (set_gpt_params v s).
Proof. repeat split. exists []. fields. rewrite app_nil_r. reflexivity. Qed.

Lemma framed_encode_image (img : Image.t) : preserves frame (encode_image img).
Proof.
  unfold encode_image.
  apply (preserves_bind frame frame_trans); [apply preserves_modify; intros; apply frame_log|].
  intros _. destruct (cv_imencode_jpg img) as [buf|]; [|apply preserves_fail].
  apply (preserves_bind frame frame_trans); [apply preserves_modify; intros; apply frame_log|].
  intros _.
  destruct (base64_encode buf (Z.of_nat (List.length buf))
              base64_encode_default_url); [apply (preserves_ret frame frame_refl) | apply preserves_fail].
Qed.

Lemma framed_execute_setup (gh : GoalHandle) : preserves frame (execute_setup gh).
Proof.
  unfold execute_setup.
  apply (preserves_bind frame frame_trans).
  { destruct (reset (get_goal gh)); [|apply (preserves_ret frame frame_refl)].
    apply preserves_modify. intros s.
    eapply frame_trans; [apply frame_set_llava | apply frame_log]. }
  intros _. apply (preserves_bind frame frame_trans).
  { unfold update_sampling_params_call.
    apply (preserves_bind frame frame_trans); [apply (preserves_get frame frame_refl)|]. intros n_vocab.
    apply (preserves_bind frame frame_trans); [apply (preserves_get frame frame_refl)|]. intros eos.
    apply preserves_modify. intros s.
    eapply frame_trans; [apply frame_set_gpt_params | apply frame_log]. }
  intros _.
  destruct (0 <? Z.of_nat (List.length (Image.data (image (get_goal gh))))).
  - apply (preserves_bind frame frame_trans); [apply framed_encode_image|]. intros enc.
    unfold llava_load_image_call.
    apply (preserves_bind frame frame_trans); [apply (preserves_get frame frame_refl)|].
    intros r.
    apply (preserves_bind frame frame_trans);
      [|intros; apply (preserves_ret frame frame_refl)].
    apply preserves_modify. intros s.
    eapply frame_trans; [apply frame_set_llava | apply frame_log].
  - apply (preserves_bind frame frame_trans); [|intros; apply (preserves_ret frame frame_refl)].
    apply preserves_modify. intros s.
    eapply frame_trans; [apply frame_set_llava | apply frame_log].
Qed.

(** *** Resolution *)

Lemma execute_resolve_run (gh : GoalHandle) (result : Result) (s : State) :
  accepted gh s ->
  execute_resolve result s =
  inr (tt,
       if status_canceling (status s (uuid gh))
       then log (ev_canceled (uuid gh) result)
              (set_status (uuid gh) STATUS_CANCELED s)
       else log (ev_succeed (uuid gh) result)
              (set_status (uuid gh) STATUS_SUCCEEDED s)).
Proof.
  intros [Hgh Hst].
  unfold execute_resolve, this_goal_handle_, is_canceling, canceled, succeed,
    terminate.
  mstep. mstep. rewrite Hgh. mstep. mstep.
  destruct (status_canceling (status s (uuid gh))) eqn:Hc.
  - mstep. mstep. rewrite Hgh. mstep. mstep. rewrite Hc. mrun. reflexivity.
  - mstep. mstep. rewrite Hgh. mstep. mstep. rewrite Hst. mrun. reflexivity.
Qed.

Lemma this_goal_handle_run (gh : GoalHandle) (s : State) :
  goal_handle_ s = Some gh -> this_goal_handle_ s = inr (gh, s).
Proof. intros Hgh. unfold this_goal_handle_. mstep. rewrite Hgh. reflexivity. Qed.

Lemma abort_run (gh : GoalHandle) (result : Result) (s : State) :
  status_executing_or_canceling (status s (uuid gh)) = true ->
  abort gh result s =
  inr (tt, log (ev_abort (uuid gh) result)
             (set_status (uuid gh) STATUS_ABORTED s)).
Proof.
  intros Hst. unfold abort, terminate.
  mstep. rewrite Hst. mrun. reflexivity.
Qed.

Lemma accepted_frame (gh : GoalHandle) (s s1 : State) :
  frame s s1 -> accepted gh s -> accepted gh s1.
Proof.
  intros (H1 & H2 & _) [Hgh Hst]. split; [congruence|].
  rewrite H2. exact Hst.
Qed.

(** *** [execute], path by path *)

(** The image could not be loaded: the goal in the member is aborted with
    the result as it was constructed, and [execute] returns. *)
Lemma execute_abort_run (gh : GoalHandle) (s s1 : State) :
  execute_setup gh s = inr (false, s1) -> accepted gh s ->
  execute gh s =
  inr (tt, log (ev_abort (uuid gh) (mk_Result Response.empty))
             (set_status (uuid gh) STATUS_ABORTED s1)).
Proof.
  intros Hsetup Hacc.
  assert (Hacc1 : accepted gh s1)
    by (eapply accepted_frame; [eapply framed_execute_setup; exact Hsetup | exact Hacc]).
  unfold execute, execute_generate.
  rewrite bind_bind, (bind_run _ _ _ _ _ _ _ Hsetup).
  cbn [negb]. cbv iota.
  destruct Hacc1 as [Hgh1 Hst1].
  rewrite !bind_bind.
  rewrite (bind_run _ _ _ _ _ _ _ (this_goal_handle_run gh s1 Hgh1)).
  rewrite bind_bind.
  rewrite (bind_run _ _ _ _ _ _ _ (abort_run gh _ s1 Hst1)).
  mrun. reflexivity.
Qed.

(** The generation step was reached. *)
Lemma execute_generate_run (gh : GoalHandle) (s s1 : State) :
  execute_setup gh s = inr (true, s1) -> accepted gh s ->
  let units :=
    fst (llava_generate (prompt (get_goal gh)) true (gpt_params s1) (llava s1)) in
  let l' :=
    snd (llava_generate (prompt (get_goal gh)) true (gpt_params s1) (llava s1)) in
  execute_generate gh s =
  inr (Some (aggregated units),
       log_all
         (ev_generate_response (prompt (get_goal gh)) ::
          feedback_events (Some gh) units)
         (set_llava l' s1)).
Proof.
  intros Hsetup Hacc. cbv zeta.
  assert (Hacc1 : accepted gh s1)
    by (eapply accepted_frame; [eapply framed_execute_setup; exact Hsetup | exact Hacc]).
  unfold execute_generate.
  rewrite (bind_run _ _ _ _ _ _ _ Hsetup).
  cbn [negb]. cbv iota.
  rewrite (bind_run _ _ _ _ _ _ _ (generate_response_send_text _ _ _)).
  mrun. rewrite aggregate_all. destruct Hacc1 as [-> _]. reflexivity.
Qed.

Lemma execute_generation_run (gh : GoalHandle) (s s1 : State) :
  execute_setup gh s = inr (true, s1) -> accepted gh s ->
  let units :=
    fst (llava_generate (prompt (get_goal gh)) true (gpt_params s1) (llava s1)) in
  let l' :=
    snd (llava_generate (prompt (get_goal gh)) true (gpt_params s1) (llava s1)) in
  let s2 :=
    log_all
      (ev_generate_response (prompt (get_goal gh)) ::
       feedback_events (Some gh) units)
      (set_llava l' s1) in
  execute gh s =
  inr (tt,
       if rclcpp_ok s then
         set_goal_handle_ None
           (if status_canceling (status s (uuid gh))
            then log (ev_canceled (uuid gh) (aggregated units))
                   (set_status (uuid gh) STATUS_CANCELED s2)
            else log (ev_succeed (uuid gh) (aggregated units))
                   (set_status (uuid gh) STATUS_SUCCEEDED s2))
       else s2).
Proof.
  intros Hsetup Hacc. cbv zeta.
  pose proof (framed_execute_setup gh _ _ _ Hsetup) as Hframe.
  assert (Hacc1 : accepted gh s1) by (eapply accepted_frame; eassumption).
  destruct Hframe as (_ & Hst & Hok & _).
  unfold execute.
  rewrite (bind_run _ _ _ _ _ _ _ (execute_generate_run gh s s1 Hsetup Hacc)).
  mstep. fields. rewrite Hok.
  destruct (rclcpp_ok s); [|mrun; reflexivity].
  erewrite bind_run.
  2:{ apply (execute_resolve_run gh). destruct Hacc1 as [Hg Hs].
      split; fields; assumption. }
  unfold execute_clear. mrun. rewrite Hst. reflexivity.
Qed.

Lemma feedback_events_kind (o : option GoalHandle)
    (units : list completion_output) :
  Forall (fun e => is_codec_event e = false /\ is_resolution_event e = false /\
                   is_generate_event e = false /\ standard_mode e)
    (feedback_events o units).
Proof.
  destruct o as [gh|]; [|constructor]. cbn [feedback_events].
  induction units as [|c units IH]; constructor; [cbn; auto | exact IH].
Qed.




(** *** The claims about [execute] *)


(** C9.  The abort on a failed image load undoes nothing: the engine has
    been reset (when the goal asked for it) and carries whatever the failed
    load left, and the node's sampling parameters have been updated with
    the vocabulary size and end-of-sequence token queried from the engine
    after the reset.  The next request starts from there: its own reset
    and image step act on that engine, and its sampling update is applied
    to the parameters the aborted request left. *)
Theorem execute_abort_keeps_side_effects (gh : GoalHandle) (s : State)
    (buf : list byte) (encoded : string) :
  let g := get_goal gh in
  let l1 := reset_engine g (llava s) in
  (0 < List.length (Image.data (image g)))%nat ->
  cv_imencode_jpg (image g) = Some buf ->
  base64_encode buf (Z.of_nat (List.length buf)) false = Some encoded ->
  fst (llava_load_image encoded l1) = false ->
  accepted gh s ->
  exists s' after,
    execute gh s = inr (tt, s') /\
    status s' (uuid gh) = STATUS_ABORTED /\
    events_since s s' =
      reset_events g ++
      ev_update_sampling_params (llava_get_n_vocab l1) (llava_get_token_eos l1) ::
      after /\
    (reset g = true ->
     reset_events g = [ev_llava_reset] /\ l1 = llava_reset (llava s)) /\
    llava s' = snd (llava_load_image encoded l1) /\
    gpt_params s' =
      update_sampling_params (sampling_config g) (llava_get_n_vocab l1)
        (llava_get_token_eos l1) (gpt_params s) /\
    (forall gh2 : GoalHandle,
       List.length (Image.data (image (get_goal gh2))) = O ->
       let g2 := get_goal gh2 in
       let l2 := reset_engine g2 (llava s') in
       exists s2,
         execute_setup gh2 s' = inr (true, s2) /\
         llava s2 = llava_free_image l2 /\
         gpt_params s2 =
           update_sampling_params (sampling_config g2) (llava_get_n_vocab l2)
             (llava_get_token_eos l2) (gpt_params s')).
Proof.
  cbv zeta. intros Hlen Hcv Hb64 Hload Hacc.
  pose proof (execute_setup_image gh s buf encoded Hlen Hcv Hb64) as Hsetup.
  cbv zeta in Hsetup. rewrite Hload in Hsetup.
  eexists. eexists. split; [apply (execute_abort_run gh s _ Hsetup Hacc)|].
  split; [fields; rewrite Nat.eqb_refl; reflexivity|].
  split; [apply events_since_app; fields; rewrite <- !app_assoc; reflexivity|].
  split; [|split; [reflexivity|split; [reflexivity|]]].
  - intros Hreset. unfold reset_events, reset_engine. rewrite Hreset. auto.
  - intros gh2 Hlen2.
    eexists. split; [apply (execute_setup_no_image gh2 _ Hlen2)|].
    split; reflexivity.
Qed.



(** C2, as the code has it.  When the generation step was reached and the
    process is not shutting down, the goal is resolved (succeeded or
    canceled) and the member [goal_handle_] is null when [execute]
    returns.  When the process is shutting down, nothing is resolved and
    the member is left as it was: it still holds the goal handle, whose
    status has not changed. *)
Theorem execute_clears_handle_when_resolved (gh : GoalHandle) (s s1 : State) :
  execute_setup gh s = inr (true, s1) ->
  accepted gh s ->
  exists s',
    execute gh s = inr (tt, s') /\
    (rclcpp_ok s = true ->
     goal_handle_ s' = None /\
     (status s' (uuid gh) = STATUS_SUCCEEDED \/
      status s' (uuid gh) = STATUS_CANCELED) /\
     Exists (fun e => is_resolution_event e = true) (events_since s1 s')) /\
    (rclcpp_ok s = false ->
     goal_handle_ s' = Some gh /\
     status s' = status s /\
     Forall (fun e => is_resolution_event e = false) (events_since s1 s')).
Proof.
  intros Hsetup Hacc.
  pose proof (execute_generation_run gh s s1 Hsetup Hacc) as Hrun.
  cbv zeta in Hrun.
  pose proof (framed_execute_setup gh _ _ _ Hsetup) as (Hgh & Hst & _).
  eexists. split; [exact Hrun|]. split; intros Hok; rewrite Hok.
  - split; [reflexivity|]. split.
    + destruct (status_canceling (status s (uuid gh))); fields;
        rewrite Nat.eqb_refl; auto.
    + match goal with
      | |- Exists _ (events_since s1 ?x) =>
          assert (Hev : exists evs e,
                     events_since s1 x = evs ++ [e] /\
                     is_resolution_event e = true)
      end.
      { destruct (status_canceling (status s (uuid gh)));
          eexists; eexists;
          (split; [apply events_since_app; fields; rewrite <- app_assoc;
                   reflexivity|]);
          reflexivity. }
      destruct Hev as (evs & e & -> & He).
      apply Exists_app. right. constructor. exact He.
  - fields. split; [|split].
    + rewrite Hgh. apply Hacc.
    + exact Hst.
    + erewrite events_since_app by (fields; reflexivity).
      constructor; [reflexivity|].
      eapply Forall_impl; [|apply feedback_events_kind]. cbn beta. tauto.
Qed.

(** *** The handlers *)

(** The decision of the goal callback, which leaves the state as it is. *)
Lemma handle_goal_run (id : nat) (goal : Goal) (s : State) :
  handle_goal id goal s =
  inr (match goal_handle_ s with
       | Some gh =>
           if status_active (status s (uuid gh))
           then REJECT else ACCEPT_AND_EXECUTE
       | None => ACCEPT_AND_EXECUTE
       end, s).
Proof.
  unfold handle_goal, is_active. mstep.
  destruct (goal_handle_ s) as [gh|].
  - mstep. destruct (status_active (status s (uuid gh))); reflexivity.
  - mrun. reflexivity.
Qed.

(** X7.  The goal callback decides without touching the node: it rejects
    exactly when the member holds a handle that is active, and accepts for
    execution exactly when it does not (the member is null, or its handle
    has reached a terminal state). *)
Lemma handle_goal_decision (id : nat) (goal : Goal) (s : State) :
  exists resp,
    handle_goal id goal s = inr (resp, s) /\
    (resp = REJECT <->
     exists gh, goal_handle_ s = Some gh /\
                status_active (status s (uuid gh)) = true) /\
    (resp = ACCEPT_AND_EXECUTE <->
     ~ exists gh, goal_handle_ s = Some gh /\
                  status_active (status s (uuid gh)) = true).
Proof.
  eexists. split; [apply handle_goal_run|].
  destruct (goal_handle_ s) as [gh|].
  - destruct (status_active (status s (uuid gh))) eqn:Hact; split; split.
    + intros _. exists gh. auto.
    + reflexivity.
    + discriminate.
    + intros H. exfalso. apply H. exists gh. auto.
    + discriminate.
    + intros (gh' & Heq & Hact'). inversion Heq; subst. congruence.
    + intros _ (gh' & Heq & Hact'). inversion Heq; subst. congruence.
    + reflexivity.
  - split; split.
    + discriminate.
    + intros (gh' & Heq & _). discriminate Heq.
    + intros _ (gh' & Heq & _). discriminate Heq.
    + reflexivity.
Qed.

(** C7.  Every cancel request, whatever the state of the node (no goal,
    an active goal, a resolved one), is forwarded to the engine and
    answered ACCEPT; the handler touches neither the member nor the status
    of any goal handle, and answering it again changes none of this. *)
Theorem handle_cancel_forwards_and_accepts (gh : GoalHandle) (s : State) :
  exists s',
    handle_cancel gh s = inr (CANCEL_ACCEPT, s') /\
    llava s' = llava_cancel (llava s) /\
    events_since s s' = [ev_llava_cancel] /\
    goal_handle_ s' = goal_handle_ s /\
    status s' = status s /\
    threads s' = threads s /\
    rclcpp_ok s' = rclcpp_ok s /\
    gpt_params s' = gpt_params s /\
    exists s'',
      handle_cancel gh s' = inr (CANCEL_ACCEPT, s'') /\
      goal_handle_ s'' = goal_handle_ s /\
      status s'' = status s.
Proof.
  unfold handle_cancel, llava_cancel_call.
  eexists. split; [mrun; reflexivity|].
  repeat (split; [first [reflexivity | apply events_since_app; reflexivity]|]).
  eexists. split; [mrun; reflexivity|]. split; reflexivity.
Qed.

(** C8.  The message built for a completion unit carries its token id,
    the detokenized token, the token again as the chosen token, and every
    alternate with its probability and its own detokenized text.  With no
    goal handle in the member the emitter returns without a call and
    without a fault; with one, it publishes exactly that message through
    it, and nothing else changes.  Driven by the engine over a sequence of
    units, it publishes one message per unit in the order of the units. *)
Theorem send_text_publishes_one_feedback (c : completion_output) (s : State) :
  let fb := make_feedback c in
  PartialResponse.token (partial_response fb) = co_token c /\
  PartialResponse.text (partial_response fb) = llava_detokenize [co_token c] /\
  TokenProbArray.chosen_token (PartialResponse.probs (partial_response fb)) =
    co_token c /\
  TokenProbArray.data (PartialResponse.probs (partial_response fb)) =
    map (fun prob =>
           TokenProb.mk (tp_token prob) (tp_probability prob)
             (llava_detokenize [tp_token prob]))
      (co_probs c) /\
  send_text c s =
    inr (tt, match goal_handle_ s with
             | Some gh => log (ev_publish_feedback (uuid gh) fb) s
             | None => s
             end) /\
  (forall (p : string) (flag : bool),
     exists s',
       generate_response p flag send_text s =
         inr (fst (llava_generate p flag (gpt_params s) (llava s)), s') /\
       events_since s s' =
         ev_generate_response p ::
         match goal_handle_ s with
         | Some gh =>
             map (fun c => ev_publish_feedback (uuid gh) (make_feedback c))
               (fst (llava_generate p flag (gpt_params s) (llava s)))
         | None => []
         end).
Proof.
  cbv zeta. split; [reflexivity|]. split; [reflexivity|].
  split; [unfold make_feedback; cbn; rewrite push_probs_map; reflexivity|].
  split; [unfold make_feedback; cbn; rewrite push_probs_map; reflexivity|].
  split.
  - rewrite send_text_run. unfold feedback_events.
    destruct (goal_handle_ s); [reflexivity | rewrite log_all_nil; reflexivity].
  - intros p flag.
    pose proof (generate_response_send_text p flag s) as H. cbv zeta in H.
    eexists. split; [exact H|].
    apply events_since_app. reflexivity.
Qed.

(** *** What every run of [execute] keeps *)

Lemma extends_refl (P : Event -> Prop) (s : State) : extends P s s.
Proof. exists []. split; [rewrite app_nil_r; reflexivity | constructor]. Qed.

Lemma extends_trans (P : Event -> Prop) (s1 s2 s3 : State) :
  extends P s1 s2 -> extends P s2 s3 -> extends P s1 s3.
Proof.
  intros (e1 & H1 & F1) (e2 & H2 & F2). exists (e1 ++ e2). split.
  - rewrite H2, H1, app_assoc. reflexivity.
  - apply Forall_app. auto.
Qed.

Lemma extends_log (P : Event -> Prop) (e : Event) (s s1 : State) :
  P e -> trace s1 = trace s -> extends P s (log e s1).
Proof.
  intros He Ht. exists [e]. split; [fields; rewrite Ht; reflexivity|].
  constructor; [exact He | constructor].
Qed.

Lemma extends_silent (P : Event -> Prop) (s s1 : State) :
  trace s1 = trace s -> extends P s s1.
Proof. intros Ht. exists []. rewrite app_nil_r. split; [exact Ht | constructor]. Qed.

Lemma same_threads_refl (s : State) : same_threads s s.
Proof. reflexivity. Qed.

Lemma same_threads_trans (s1 s2 s3 : State) :
  same_threads s1 s2 -> same_threads s2 s3 -> same_threads s1 s3.
Proof. unfold same_threads. congruence. Qed.

(** Walking through a method call by call. *)
Ltac walk refl trans prim :=
  repeat first
    [ apply (preserves_ret _ refl)
    | apply (preserves_get _ refl)
    | apply preserves_fail
    | apply (preserves_bind _ trans); [|intros ?]
    | apply (preserves_for_each _ refl trans); intros ?
    | apply preserves_modify; intros ?; prim
    | match goal with
      | |- preserves _ (if ?b then _ else _) => destruct b
      | |- preserves _ (match ?x with _ => _ end) => destruct x
      end ].

Ltac standard_prim :=
  first [ apply extends_log; [exact I | reflexivity]
        | apply extends_log; [reflexivity | reflexivity]
        | apply extends_silent; reflexivity ].

Ltac threads_prim := reflexivity.

Lemma send_text_standard (c : completion_output) :
  preserves (extends standard_mode) (send_text c).
Proof.
  unfold send_text, this_goal_handle_, publish_feedback.
  walk (extends_refl standard_mode) (extends_trans standard_mode) standard_prim.
Qed.

Lemma execute_generate_standard (gh : GoalHandle) :
  preserves (extends standard_mode) (execute_generate gh).
Proof.
  unfold execute_generate, execute_setup, encode_image, generate_response,
    llava_reset_call, llava_free_image_call, llava_load_image_call,
    update_sampling_params_call, this_goal_handle_, abort, terminate,
    base64_encode_default_url.
  walk (extends_refl standard_mode) (extends_trans standard_mode) standard_prim;
    apply send_text_standard.
Qed.

Lemma execute_resolve_standard (result : Result) :
  preserves (extends standard_mode) (execute_resolve result).
Proof.
  unfold execute_resolve, this_goal_handle_, is_canceling, canceled, succeed,
    terminate.
  walk (extends_refl standard_mode) (extends_trans standard_mode) standard_prim.
Qed.

Lemma execute_standard (gh : GoalHandle) :
  preserves (extends standard_mode) (execute gh).
Proof.
  unfold execute.
  apply (preserves_bind _ (extends_trans standard_mode));
    [apply execute_generate_standard|].
  intros [result|]; [|apply (preserves_ret _ (extends_refl standard_mode))].
  apply (preserves_bind _ (extends_trans standard_mode));
    [apply (preserves_get _ (extends_refl standard_mode))|].
  intros [|]; [|apply (preserves_ret _ (extends_refl standard_mode))].
  apply (preserves_bind _ (extends_trans standard_mode));
    [apply execute_resolve_standard|].
  intros _. unfold execute_clear. apply preserves_modify. intros s.
  apply extends_silent. reflexivity.
Qed.

Lemma thread_step_same_threads (t : Thread) :
  preserves same_threads (thread_step t).
Proof.
  unfold thread_step, execute_generate, execute_setup, encode_image,
    generate_response, execute_resolve, execute_clear,
    llava_reset_call, llava_free_image_call, llava_load_image_call,
    update_sampling_params_call, this_goal_handle_, abort, terminate,
    is_canceling, canceled, succeed.
  destruct (th_pc t);
    walk same_threads_refl same_threads_trans threads_prim.
  all: unfold send_text, this_goal_handle_, publish_feedback;
    walk same_threads_refl same_threads_trans threads_prim.
Qed.

(** *** Admission control *)

Lemma replace_nth_same (A : Type) (l : list A) (i : nat) (x : A) :
  nth_error l i = Some x -> replace_nth i x l = l.
Proof.
  revert i. induction l as [|y l IH]; intros [|i] H; cbn in *;
    try discriminate; [congruence|].
  rewrite IH by exact H. reflexivity.
Qed.

Lemma replace_nth_twice (A : Type) (l : list A) (i : nat) (x y : A) :
  replace_nth i y (replace_nth i x l) = replace_nth i y l.
Proof.
  revert i. induction l as [|z l IH]; intros [|i]; cbn; try reflexivity.
  rewrite IH. reflexivity.
Qed.

Lemma nth_error_replace_nth (A : Type) (l : list A) (i : nat) (x y : A) :
  nth_error l i = Some x -> nth_error (replace_nth i y l) i = Some y.
Proof.
  revert i. induction l as [|z l IH]; intros [|i] H; cbn in *;
    try discriminate; [reflexivity|].
  apply IH. exact H.
Qed.

Lemma thread_step_progress (t t' : Thread) (s s1 : State) :
  thread_step t s = inr (t', s1) ->
  th_goal_handle t' = th_goal_handle t /\
  (pc_rank (th_pc t') <= pc_rank (th_pc t) - 1)%nat.
Proof.
  unfold thread_step. destruct t as [gh pc]. cbn [th_pc th_goal_handle].
  destruct pc as [|result| |]; intros H.
  - unfold bind in H.
    destruct (execute_generate gh s) as [f|[[r|] s2]]; [discriminate H| |];
      inversion H; subst; cbn; split; auto; lia.
  - unfold bind, get in H. destruct (rclcpp_ok s).
    + destruct (execute_resolve result s) as [f|[u s2]]; [discriminate H|].
      inversion H; subst; cbn; split; auto; lia.
    + inversion H; subst; cbn; split; auto; lia.
  - unfold bind, execute_clear, modify in H.
    inversion H; subst; cbn; split; auto; lia.
  - inversion H; subst; cbn; split; auto; lia.
Qed.

Lemma advance_thread_S (i k : nat) (s : State) :
  advance_thread i (S k) s =
  match nth_error (threads s) i with
  | None => inr (tt, s)
  | Some t =>
      match thread_step t s with
      | inl f => inl f
      | inr (t', s1) =>
          advance_thread i k (set_threads (replace_nth i t' (threads s1)) s1)
      end
  end.
Proof.
  unfold advance_thread at 1. mstep.
  destruct (nth_error (threads s) i) as [t|]; [|reflexivity].
  unfold bind at 1. destruct (thread_step t s) as [f|[t' s1]]; [reflexivity|].
  mstep. reflexivity.
Qed.

(** After [k] stretches thread [i] is [k] stretches further, and no other
    thread has moved. *)
Lemma advance_thread_threads (i k : nat) :
  forall (s s' : State) (t : Thread),
    nth_error (threads s) i = Some t ->
    advance_thread i k s = inr (tt, s') ->
    exists t',
      threads s' = replace_nth i t' (threads s) /\
      th_goal_handle t' = th_goal_handle t /\
      (pc_rank (th_pc t') <= pc_rank (th_pc t) - k)%nat.
Proof.
  induction k as [|k IH]; intros s s' t Ht H.
  - inversion H; subst. exists t. rewrite replace_nth_same by exact Ht.
    split; [reflexivity|]. split; [reflexivity | lia].
  - rewrite advance_thread_S, Ht in H.
    destruct (thread_step t s) as [f|[t1 s1]] eqn:Hstep; [discriminate H|].
    pose proof (thread_step_same_threads t _ _ _ Hstep) as Hsame.
    unfold same_threads in Hsame.
    destruct (thread_step_progress _ _ _ _ Hstep) as [Hgh Hrank].
    eapply IH in H.
    2:{ fields. rewrite Hsame. eapply nth_error_replace_nth. exact Ht. }
    destruct H as (t' & Hth & Hgh' & Hrank').
    exists t'. fields in Hth. rewrite Hsame, replace_nth_twice in Hth.
    split; [exact Hth|]. split; [congruence | lia].
Qed.

Lemma thread_step_done (t : Thread) (s : State) :
  th_pc t = PC_DONE -> thread_step t s = inr (t, s).
Proof. intros H. unfold thread_step. rewrite H. reflexivity. Qed.

(** A thread that has finished does nothing more. *)
Lemma advance_thread_done (i k : nat) :
  forall (s s' : State) (t : Thread),
    nth_error (threads s) i = Some t -> th_pc t = PC_DONE ->
    advance_thread i k s = inr (tt, s') ->
    goal_handle_ s' = goal_handle_ s /\ status s' = status s /\
    threads s' = threads s.
Proof.
  induction k as [|k IH]; intros s s' t Ht Hpc H.
  - inversion H; subst. auto.
  - rewrite advance_thread_S, Ht, (thread_step_done t s Hpc) in H.
    rewrite (replace_nth_same _ _ _ _ Ht) in H.
    eapply IH in H; [|fields; exact Ht | exact Hpc].
    exact H.
Qed.

Lemma running_replace_done (l : list Thread) (i : nat) (t t' : Thread) :
  nth_error l i = Some t -> th_pc t' = PC_DONE ->
  (List.length (filter thread_running l) <= 1)%nat ->
  thread_running t = true ->
  filter thread_running (replace_nth i t' l) = [].
Proof.
  revert i. induction l as [|x l IH]; intros [|i] Ht Hpc Hlen Hrun;
    cbn in *; try discriminate.
  - inversion Ht; subst x. rewrite Hrun in Hlen. cbn in Hlen.
    unfold thread_running at 1. rewrite Hpc.
    destruct (filter thread_running l); [reflexivity | cbn in Hlen; lia].
  - assert (Hin : In t (filter thread_running l)).
    { apply filter_In. split; [eapply nth_error_In; exact Ht | exact Hrun]. }
    destruct (thread_running x).
    + cbn in Hlen. destruct (filter thread_running l); [contradiction|].
      cbn in Hlen. lia.
    + apply (IH i); assumption.
Qed.

Lemma Forall_replace_nth (A : Type) (P : A -> Prop) (l : list A) (i : nat)
    (x : A) :
  Forall P l -> P x -> Forall P (replace_nth i x l).
Proof.
  intros Hl Hx. revert i.
  induction Hl as [|y l Hy Hl IH]; intros [|i]; cbn; constructor; auto.
Qed.

Lemma one_goal_fields (s s' : State) :
  goal_handle_ s' = goal_handle_ s -> status s' = status s ->
  threads s' = threads s -> one_goal s -> one_goal s'.
Proof.
  unfold one_goal, running, accepted. intros -> -> ->. auto.
Qed.

Lemma executing_or_canceling_active (st : GoalStatus) :
  status_executing_or_canceling st = true -> status_active st = true.
Proof. destruct st; cbn; congruence. Qed.

(** While a coordinator is running, the goal callback rejects. *)
Lemma running_rejects (s : State) (t : Thread) (l : list Thread) :
  one_goal s -> running s = t :: l ->
  goal_handle_ s = Some (th_goal_handle t) /\
  status_active (status s (uuid (th_goal_handle t))) = true.
Proof.
  intros (_ & _ & Hacc) Hrun. rewrite Hrun in Hacc.
  apply Forall_inv in Hacc. destruct Hacc as [Hgh Hst].
  split; [exact Hgh | apply executing_or_canceling_active; exact Hst].
Qed.

Lemma goal_request_one_goal (goal : Goal) (s s' : State) (resp : GoalResponse) :
  one_goal s -> server_goal_request goal s = inr (resp, s') -> one_goal s'.
Proof.
  intros Hinv. unfold server_goal_request. mstep. mstep.
  rewrite (bind_run _ _ _ _ _ _ _ (handle_goal_run _ _ _)). fields.
  destruct (running s) as [|t l] eqn:Hrun.
  - (* nothing is running: whatever the answer, at most the new goal runs *)
    assert (Hnew : forall gh,
               one_goal
                 (set_threads
                    (threads s ++ [mk_Thread gh PC_START])
                    (set_goal_handle_ (Some gh)
                       (set_status (uuid gh) STATUS_EXECUTING
                          (set_next_uuid (S (next_uuid s)) s))))).
    { intros gh. destruct Hinv as (Hidle & _ & _).
      unfold one_goal, running. fields. rewrite filter_app.
      fold (running s). rewrite Hrun. cbn [app filter thread_running th_pc].
      split; [|split].
      - apply Forall_app. split; [exact Hidle|].
        constructor; [left; reflexivity | constructor].
      - cbn. lia.
      - constructor; [|constructor]. split; fields; [reflexivity|].
        cbn [th_goal_handle]. rewrite Nat.eqb_refl. reflexivity. }
    assert (Hsame : one_goal (set_next_uuid (S (next_uuid s)) s))
      by (eapply one_goal_fields; [reflexivity..|exact Hinv]).
    destruct (goal_handle_ s) as [cur|];
      [destruct (status_active (status s (uuid cur)))|];
      unfold handle_accepted, spawn_execute; mrun; intros H; inversion H; subst;
      first [exact Hsame | apply (Hnew (mk_GoalHandle (next_uuid s) goal))].
  - destruct (running_rejects s t l Hinv Hrun) as [Hgh Hact].
    rewrite Hgh, Hact. mrun. intros H. inversion H; subst.
    eapply one_goal_fields; [reflexivity..|exact Hinv].
Qed.

(** What [execute] is started in: when the server accepts a goal, the
    member holds the new handle, the handle is executing, and one thread
    has been started for it. *)
Lemma goal_request_installs (goal : Goal) (s s' : State) :
  server_goal_request goal s = inr (ACCEPT_AND_EXECUTE, s') ->
  let gh := mk_GoalHandle (next_uuid s) goal in
  accepted gh s' /\ threads s' = threads s ++ [mk_Thread gh PC_START].
Proof.
  unfold server_goal_request. mstep. mstep.
  rewrite (bind_run _ _ _ _ _ _ _ (handle_goal_run _ _ _)). fields.
  destruct (goal_handle_ s) as [cur|];
    [destruct (status_active (status s (uuid cur)))|];
    unfold handle_accepted, spawn_execute; mrun; intros H; inversion H; subst;
    cbv zeta; unfold accepted; fields; cbn [uuid];
    rewrite Nat.eqb_refl; auto.
Qed.

Lemma cancel_request_one_goal (gh : GoalHandle) (s s' : State) :
  one_goal s -> server_cancel_request gh s = inr (tt, s') -> one_goal s'.
Proof.
  intros Hinv. unfold server_cancel_request, handle_cancel, llava_cancel_call.
  mstep.
  assert (Hcancel :
            one_goal
              (set_status (uuid gh) STATUS_CANCELING
                 (log ev_llava_cancel (set_llava (llava_cancel (llava s)) s)))).
  { destruct Hinv as (Hidle & Hlen & Hacc).
    unfold one_goal, running, accepted in *. fields.
    split; [exact Hidle|]. split; [exact Hlen|].
    eapply Forall_impl; [|exact Hacc]. cbn beta. intros t [Hgh Hst].
    split; [exact Hgh|].
    destruct (Nat.eqb (uuid (th_goal_handle t)) (uuid gh)); [reflexivity | exact Hst]. }
  destruct (status s (uuid gh)); mrun; intros H; inversion H; subst;
    first [exact Hinv | exact Hcancel].
Qed.

Lemma thread_run_one_goal (i : nat) (s s' : State) :
  one_goal s -> advance_thread i 3 s = inr (tt, s') -> one_goal s'.
Proof.
  intros Hinv H.
  destruct (nth_error (threads s) i) as [t|] eqn:Ht.
  2:{ rewrite advance_thread_S, Ht in H. inversion H; subst. exact Hinv. }
  destruct Hinv as (Hidle & Hlen & Hacc).
  assert (Hin : In t (threads s)) by (eapply nth_error_In; exact Ht).
  pose proof (proj1 (Forall_forall _ _) Hidle t Hin) as [Hpc|Hpc].
  - destruct (advance_thread_threads i 3 s s' t Ht H) as (t' & Hth & _ & Hrank).
    rewrite Hpc in Hrank. cbn in Hrank.
    assert (Hdone : th_pc t' = PC_DONE)
      by (destruct (th_pc t'); cbn in Hrank; try lia; reflexivity).
    assert (Hnone : running s' = []).
    { unfold running. rewrite Hth.
      eapply running_replace_done; try eassumption.
      unfold thread_running. rewrite Hpc. reflexivity. }
    unfold one_goal. rewrite Hnone. split; [|split].
    + rewrite Hth. apply Forall_replace_nth; [exact Hidle | right; exact Hdone].
    + cbn. lia.
    + constructor.
  - destruct (advance_thread_done i 3 s s' t Ht Hpc H) as (Hgh & Hst & Hth).
    eapply one_goal_fields; try eassumption. repeat split; assumption.
Qed.

Lemma step_one_goal (a : Action) (s s' : State) :
  atomic a = true -> one_goal s -> step a s = inr (tt, s') -> one_goal s'.
Proof.
  intros Ha Hinv. destruct a as [goal|gh| |i|i]; cbn [step].
  - unfold bind.
    destruct (server_goal_request goal s) as [f|[resp s1]] eqn:Hreq;
      [discriminate|].
    intros H. inversion H; subst. eapply goal_request_one_goal; eassumption.
  - apply cancel_request_one_goal. exact Hinv.
  - intros H. inversion H; subst.
    eapply one_goal_fields; [reflexivity..|exact Hinv].
  - discriminate Ha.
  - apply thread_run_one_goal. exact Hinv.
Qed.

(** As long as no [execute] is interrupted between two of its stretches,
    the admission rule does what it is there for: whatever goals and
    cancel requests arrive, at most one coordinator is running. *)
Theorem uninterrupted_runs_one_goal (schedule : list Action) :
  forall (s s' : State),
    forallb atomic schedule = true ->
    one_goal s ->
    run schedule s = inr (tt, s') ->
    (List.length (running s') <= 1)%nat /\ one_goal s'.
Proof.
  unfold run.
  induction schedule as [|a schedule IH]; intros s s' Hat Hinv H.
  - inversion H; subst. split; [apply Hinv | exact Hinv].
  - cbn [forallb] in Hat. apply andb_prop in Hat. destruct Hat as [Ha Hat].
    cbn [for_each] in H. unfold bind in H.
    destruct (step a s) as [f|[[] s1]] eqn:Hstep; [discriminate H|].
    eapply IH; [exact Hat | | exact H].
    eapply step_one_goal; eassumption.
Qed.

Lemma init_state_one_goal (l : Llava) (params : GptParams) :
  one_goal (init_state l params).
Proof.
  unfold one_goal, running, init_state. fields. cbn [filter List.length].
  split; [constructor|]. split; [lia | constructor].
Qed.

End NodeFacts.

(** ** The node on the small engine *)

Example started_text_accepted :
  accepted (Toy.handle Toy.goal_text) (Toy.started Toy.goal_text).
Proof. unfold accepted. split; vm_compute; reflexivity. Qed.

Example tiny_image_encoding :
  base64_encode (Image.data Toy.tiny_image) 3 false = Some "AQID"%string.
Proof. reflexivity. Qed.

(** C1.  The goal callback rejects exactly while the member holds an
    active handle, and decides without touching the state
    ([handle_goal_decision]); with no [execute] interrupted this keeps at
    most one coordinator running ([uninterrupted_runs_one_goal]).  But
    [execute] resolves its goal and clears the member in two steps, and the
    callbacks run on another thread.  Here goal 0 has succeeded and its
    thread has not yet cleared the member; goal 1 is accepted (the handle
    of goal 0 is no longer active) and installed; the thread of goal 0 then
    clears the member, which by now holds goal 1.  Goal 1 is executing, the
    member is null, and goal 2 is accepted as well: two coordinators are
    running and both goals are EXECUTING, also after both have generated.
    When the coordinator of goal 1 then resolves, it resolves the goal in
    the member, goal 2, with its own result, and leaves goal 1 executing
    for ever; the coordinator of goal 2 finds the member null. *)
Theorem admission_race_two_goals_running :
  exists s5 s6 s8 s10,
    run (firstn 5 Toy.race) Toy.state0 = inr (tt, s5) /\
    map (fun t => uuid (th_goal_handle t)) (running s5) = [1%nat] /\
    status s5 1%nat = STATUS_EXECUTING /\
    goal_handle_ s5 = None /\
    server_goal_request Toy.goal_other s5 = inr (ACCEPT_AND_EXECUTE, s6) /\
    map (fun t => uuid (th_goal_handle t)) (running s6) = [1%nat; 2%nat] /\
    status s6 1%nat = STATUS_EXECUTING /\
    status s6 2%nat = STATUS_EXECUTING /\
    run (firstn 8 Toy.race) Toy.state0 = inr (tt, s8) /\
    map (fun t => (uuid (th_goal_handle t), pc_rank (th_pc t))) (running s8) =
      [(1%nat, 2%nat); (2%nat, 2%nat)] /\
    status s8 1%nat = STATUS_EXECUTING /\
    status s8 2%nat = STATUS_EXECUTING /\
    run Toy.race Toy.state0 = inr (tt, s10) /\
    status s10 1%nat = STATUS_EXECUTING /\
    status s10 2%nat = STATUS_SUCCEEDED /\
    map (fun t => uuid (th_goal_handle t)) (running s10) = [2%nat] /\
    map (fun e =>
           match e with
           | ev_succeed id r => Some (id, Response.text (response r))
           | _ => None
           end)
      (filter is_resolution_event (trace s10)) =
      [Some (O, "Hi"%string); Some (2%nat, "Hi"%string)] /\
    run (Toy.race ++ [THREAD_STEP 2]) Toy.state0 = inl NULL_DEREFERENCE.
Proof.
  exists (final (run (firstn 5 Toy.race)) Toy.state0).
  exists (final (server_goal_request Toy.goal_other)
            (final (run (firstn 5 Toy.race)) Toy.state0)).
  exists (final (run (firstn 8 Toy.race)) Toy.state0).
  exists (final (run Toy.race) Toy.state0).
  split; [apply final_run; vm_compute; reflexivity|].
  split; [vm_compute; reflexivity|].
  split; [vm_compute; reflexivity|].
  split; [vm_compute; reflexivity|].
  split; [apply final_run; vm_compute; reflexivity|].
  split; [vm_compute; reflexivity|].
  split; [vm_compute; reflexivity|].
  split; [vm_compute; reflexivity|].
  split; [apply final_run; vm_compute; reflexivity|].
  split; [vm_compute; reflexivity|].
  split; [vm_compute; reflexivity|].
  split; [vm_compute; reflexivity|].
  split; [apply final_run; vm_compute; reflexivity|].
  split; [vm_compute; reflexivity|].
  split; [vm_compute; reflexivity|].
  split; [vm_compute; reflexivity|].
  split; vm_compute; reflexivity.
Qed.

(** C2, the claim as stated.  Two terminal transitions after which the
    member is not null: the process is shutting down when the generation
    ends (nothing is resolved, the member keeps the handle), and the image
    cannot be loaded (the goal is aborted, [execute] returns, the member
    keeps the handle of the aborted goal). *)
Lemma execute_returns_with_handle_set :
  (exists s',
     execute (Toy.handle Toy.goal_text)
       (Toy.started_shutdown Toy.goal_text) = inr (tt, s') /\
     goal_handle_ s' = Some (Toy.handle Toy.goal_text) /\
     goal_handle_ s' <> None) /\
  (exists s',
     execute (Toy.handle Toy.goal_tiny) (Toy.started Toy.goal_tiny) =
       inr (tt, s') /\
     status s' O = STATUS_ABORTED /\
     goal_handle_ s' = Some (Toy.handle Toy.goal_tiny) /\
     goal_handle_ s' <> None).
Proof.
  split.
  - exists (final (execute (Toy.handle Toy.goal_text))
              (Toy.started_shutdown Toy.goal_text)).
    split; [apply final_run; vm_compute; reflexivity|].
    split; [vm_compute; reflexivity|].
    vm_compute. discriminate.
  - exists (final (execute (Toy.handle Toy.goal_tiny))
              (Toy.started Toy.goal_tiny)).
    split; [apply final_run; vm_compute; reflexivity|].
    split; [vm_compute; reflexivity|].
    split; [vm_compute; reflexivity|]. vm_compute. discriminate.
Qed.

Lemma execute_clears_handle_when_resolved_witness :
  execute_setup (Toy.handle Toy.goal_text) (Toy.started Toy.goal_text) =
    inr (true, Toy.after_setup Toy.goal_text) /\
  accepted (Toy.handle Toy.goal_text) (Toy.started Toy.goal_text) /\
  exists s',
    execute (Toy.handle Toy.goal_text) (Toy.started Toy.goal_text) =
      inr (tt, s') /\
    goal_handle_ s' = None.
Proof.
  assert (H1 : execute_setup (Toy.handle Toy.goal_text) (Toy.started Toy.goal_text) =
               inr (true, Toy.after_setup Toy.goal_text))
    by (apply final_run; vm_compute; reflexivity).
  assert (H2 : accepted (Toy.handle Toy.goal_text) (Toy.started Toy.goal_text))
    by (unfold accepted; split; vm_compute; reflexivity).
  split; [exact H1|]. split; [exact H2|].
  destruct (execute_clears_handle_when_resolved
              (Toy.handle Toy.goal_text) (Toy.started Toy.goal_text)
              (Toy.after_setup Toy.goal_text) H1 H2) as (s' & Hrun & Hok & _).
  exists s'. split; [exact Hrun|]. apply Hok. vm_compute. reflexivity.
Defined.


Lemma execute_abort_keeps_side_effects_witness :
  (0 < List.length (Image.data (image Toy.goal_tiny)))%nat /\
  accepted (Toy.handle Toy.goal_tiny) (Toy.started Toy.goal_tiny) /\
  exists s',
    execute (Toy.handle Toy.goal_tiny) (Toy.started Toy.goal_tiny) =
      inr (tt, s') /\
    status s' O = STATUS_ABORTED /\
    llava s' = Toy.mk_llava false None 1 /\
    gpt_params s' = (7, 32000, 2).
Proof.
  assert (H1 : (0 < List.length (Image.data (image Toy.goal_tiny)))%nat)
    by (vm_compute; lia).
  assert (H2 : accepted (Toy.handle Toy.goal_tiny) (Toy.started Toy.goal_tiny))
    by (unfold accepted; split; vm_compute; reflexivity).
  split; [exact H1|]. split; [exact H2|].
  destruct (execute_abort_keeps_side_effects
              (Toy.handle Toy.goal_tiny) (Toy.started Toy.goal_tiny)
              [x01; x02; x03] "AQID"%string H1)
    as (s' & after & Hrun & Hst & _ & _ & Hllava & Hparams & _);
    [reflexivity | reflexivity | vm_compute; reflexivity | exact H2 |].
  exists s'. split; [exact Hrun|]. split; [exact Hst|].
  split; [rewrite Hllava | rewrite Hparams]; vm_compute; reflexivity.
Defined.




(** * Further properties of the encoder *)

Section MoreBase64Facts.

Lemma len_encoded_small (n : Z) :
  0 <= n < UINT_MODULUS -> len_encoded n = (n + 2) / 3 * 4.
Proof.
  intros Hn. rewrite UINT_MODULUS_eq in Hn. unfold len_encoded, size_t.
  rewrite (Z.mod_small (n + 2))
    by (change SIZE_MODULUS with 18446744073709551616; lia).
  apply Z.mod_small. change SIZE_MODULUS with 18446744073709551616.
  Z.div_mod_to_equations. lia.
Qed.

Lemma string_of_list_ascii_app (l1 l2 : list ascii) :
  string_of_list_ascii (l1 ++ l2) =
  (string_of_list_ascii l1 ++ string_of_list_ascii l2)%string.
Proof. induction l1 as [|c l1 IH]; cbn; [reflexivity | rewrite IH; reflexivity]. Qed.

(** Below [2 ^ 32] bytes either mode returns the standard encoding written
    in its own characters. *)
Lemma base64_encode_below (bytes : list byte) (url : bool) :
  Z.of_nat (List.length bytes) < UINT_MODULUS ->
  base64_encode bytes (Z.of_nat (List.length bytes)) url =
  Some (string_of_list_ascii (map (mode_char url) (std_encode bytes))).
Proof.
  intros Hlen. destruct url.
  - destruct base64_encode_url_mode as (_ & _ & _ & _ & _ & Hrel).
    unfold base64_encode. rewrite Hrel.
    fold (base64_encode bytes (Z.of_nat (List.length bytes)) false).
    rewrite base64_encode_std by exact Hlen.
    cbn [option_map]. unfold url_variant.
    rewrite list_ascii_of_string_of_list_ascii. reflexivity.
  - rewrite base64_encode_std by exact Hlen.
    rewrite (map_ext (mode_char false) (fun c => c)) by reflexivity.
    rewrite map_id. reflexivity.
Qed.

(** Every character of a standard encoding is a symbol of the alphabet or
    the padding character. *)
Lemma std_encode_chars (bytes : list byte) :
  Forall (fun c => c = pad \/ exists v, 0 <= v < 64 /\ c = std_symbol v)
    (std_encode bytes).
Proof.
  destruct (std_encode_padding bytes) as (symbols & -> & Hall).
  apply Forall_app. split.
  - eapply Forall_impl; [|exact Hall]. cbn beta. auto.
  - apply Forall_forall. intros c Hc. apply repeat_spec in Hc. auto.
Qed.

Lemma std_char_url_char (c : ascii) :
  (c = pad \/ exists v, 0 <= v < 64 /\ c = std_symbol v) ->
  std_char (url_char c) = c /\ url_safe (url_char c) = true.
Proof.
  intros [->|(v & Hv & ->)]; [split; reflexivity|].
  assert (H : Ascii.eqb (std_char (url_char (std_symbol v))) (std_symbol v) &&
              url_safe (url_char (std_symbol v)) = true).
  { apply (forall_below
             (fun v => Ascii.eqb (std_char (url_char (std_symbol v)))
                         (std_symbol v) &&
                       url_safe (url_char (std_symbol v))) 64);
      [vm_compute; reflexivity | exact Hv]. }
  apply andb_prop in H. destruct H as [H1 H2].
  split; [apply Ascii.eqb_eq; exact H1 | exact H2].
Qed.

(** X4.  In URL mode a buffer shorter than [2 ^ 32] bytes is encoded to a
    string of the reserved length that contains none of [+], [/], [=], and
    reading [-], [_], [.] back as [+], [/], [=] decodes it to the buffer. *)
Theorem base64_encode_url_roundtrip (bytes : list byte) :
  Z.of_nat (List.length bytes) < UINT_MODULUS ->
  exists out,
    base64_encode bytes (Z.of_nat (List.length bytes)) true = Some out /\
    Z.of_nat (String.length out) = len_encoded (Z.of_nat (List.length bytes)) /\
    Forall (fun c => url_safe c = true) (list_ascii_of_string out) /\
    url_decode (list_ascii_of_string out) = Some bytes.
Proof.
  intros Hlen. eexists. split; [apply base64_encode_below; exact Hlen|].
  rewrite list_ascii_of_string_of_list_ascii, string_of_list_ascii_length,
    length_map, std_encode_length, len_encoded_small by lia.
  split; [reflexivity|].
  pose proof (std_encode_chars bytes) as Hchars.
  split.
  - apply Forall_map. eapply Forall_impl; [|exact Hchars].
    cbn beta. intros c Hc. apply (std_char_url_char c Hc).
  - unfold url_decode. rewrite map_map.
    assert (Hback : Forall (fun c => std_char (mode_char true c) = (fun c => c) c)
                      (std_encode bytes)).
    { eapply Forall_impl; [|exact Hchars].
      cbn beta. intros c Hc. apply (std_char_url_char c Hc). }
    rewrite (map_ext_Forall _ _ Hback), map_id. apply std_decode_encode.
Qed.

Lemma base64_encode_url_roundtrip_witness :
  Z.of_nat (List.length [xfb; xff]) < UINT_MODULUS /\
  exists out,
    base64_encode [xfb; xff] (Z.of_nat (List.length [xfb; xff])) true = Some out /\
    url_decode (list_ascii_of_string out) = Some [xfb; xff].
Proof.
  assert (H : Z.of_nat (List.length [xfb; xff]) < UINT_MODULUS) by reflexivity.
  split; [exact H|].
  destruct (base64_encode_url_roundtrip [xfb; xff] H) as (out & Henc & _ & _ & Hdec).
  exists out. split; [exact Henc | exact Hdec].
Defined.

(** *** The buffer is read through [in_len] *)

Lemma at_firstn (bytes : list byte) (n i : Z) :
  0 <= i < n -> at_ (firstn (Z.to_nat n) bytes) i = at_ bytes i.
Proof.
  intros Hi. unfold at_. rewrite nth_firstn.
  replace (Z.to_nat i <? Z.to_nat n)%nat with true
    by (symmetry; apply Nat.ltb_lt; lia).
  reflexivity.
Qed.

Lemma base64_body_firstn (chars : string) (trailing : ascii)
    (bytes : list byte) (in_len pos : Z) (ret : list ascii) :
  0 <= pos < in_len -> pos < UINT_MODULUS ->
  base64_body chars trailing (firstn (Z.to_nat in_len) bytes) in_len pos ret =
  base64_body chars trailing bytes in_len pos ret.
Proof.
  intros Hpos Hmax. unfold base64_body.
  rewrite Z.add_0_r, (uint_small pos) by lia.
  rewrite (at_firstn bytes in_len pos) by lia.
  pose proof (uint_range (pos + 1)) as H1.
  pose proof (uint_range (pos + 2)) as H2.
  destruct (uint (pos + 1) <? in_len) eqn:E1; [|reflexivity].
  apply Z.ltb_lt in E1.
  rewrite (at_firstn bytes in_len (uint (pos + 1))) by lia.
  destruct (uint (pos + 2) <? in_len) eqn:E2; [|reflexivity].
  apply Z.ltb_lt in E2.
  rewrite (at_firstn bytes in_len (uint (pos + 2))) by lia.
  reflexivity.
Qed.

Lemma base64_loop_firstn (fuel : nat) :
  forall (chars : string) (trailing : ascii) (bytes : list byte)
         (in_len pos : Z) (ret : list ascii),
    0 <= pos < UINT_MODULUS ->
    base64_loop fuel chars trailing (firstn (Z.to_nat in_len) bytes) in_len pos ret =
    base64_loop fuel chars trailing bytes in_len pos ret.
Proof.
  induction fuel as [|fuel IH]; intros chars trailing bytes in_len pos ret Hpos;
    [reflexivity|].
  cbn [base64_loop]. destruct (pos <? in_len) eqn:E; [|reflexivity].
  apply Z.ltb_lt in E.
  rewrite base64_body_firstn by lia.
  apply IH. apply uint_range.
Qed.

(** X2.  Whatever the buffer holds after its first [in_len] bytes has no
    part in the result: in either mode, for every [in_len] and however
    long the loop is followed, the call on a buffer behaves as the call on
    the buffer cut to [in_len] bytes. *)
Theorem base64_encode_reads_in_len_bytes (bytes : list byte) (in_len : Z)
    (url : bool) :
  (forall fuel,
     base64_encode_fuel fuel bytes in_len url =
     base64_encode_fuel fuel (firstn (Z.to_nat in_len) bytes) in_len url) /\
  base64_encode bytes in_len url =
  base64_encode (firstn (Z.to_nat in_len) bytes) in_len url.
Proof.
  assert (H : forall fuel,
             base64_encode_fuel fuel bytes in_len url =
             base64_encode_fuel fuel (firstn (Z.to_nat in_len) bytes) in_len url).
  { intros fuel. unfold base64_encode_fuel.
    rewrite base64_loop_firstn; [reflexivity|].
    rewrite UINT_MODULUS_eq. lia. }
  split; [exact H | apply H].
Qed.

(** X3.  Called with a length that does not exceed the buffer (and is below
    [2 ^ 32]), the encoder returns the encoding of exactly the first
    [in_len] bytes. *)
Theorem base64_encode_prefix (bytes : list byte) (in_len : Z) (url : bool) :
  0 <= in_len <= Z.of_nat (List.length bytes) ->
  in_len < UINT_MODULUS ->
  base64_encode bytes in_len url =
  Some (string_of_list_ascii
          (map (mode_char url) (std_encode (firstn (Z.to_nat in_len) bytes)))).
Proof.
  intros Hin Hmax.
  assert (Hlen : Z.of_nat (List.length (firstn (Z.to_nat in_len) bytes)) = in_len)
    by (rewrite length_firstn; lia).
  assert (H : base64_encode bytes in_len url =
              base64_encode (firstn (Z.to_nat in_len) bytes) in_len url).
  { unfold base64_encode, base64_encode_fuel.
    rewrite base64_loop_firstn; [reflexivity|].
    rewrite UINT_MODULUS_eq. lia. }
  pose proof (base64_encode_below (firstn (Z.to_nat in_len) bytes) url) as Hb.
  rewrite Hlen in Hb. rewrite H. apply Hb. exact Hmax.
Qed.

Lemma base64_encode_prefix_witness :
  0 <= 2 <= Z.of_nat (List.length (list_byte_of_string "Man")) /\
  2 < UINT_MODULUS /\
  base64_encode (list_byte_of_string "Man") 2 false = Some "TWE="%string.
Proof.
  assert (H1 : 0 <= 2 <= Z.of_nat (List.length (list_byte_of_string "Man")))
    by (vm_compute; split; discriminate).
  assert (H2 : 2 < UINT_MODULUS) by reflexivity.
  split; [exact H1|]. split; [exact H2|].
  exact (base64_encode_prefix (list_byte_of_string "Man") 2 false H1 H2).
Defined.

(** *** Pieces *)

Lemma std_encode_app (a b : list byte) :
  Z.of_nat (List.length a) mod 3 = 0 ->
  std_encode (a ++ b) = std_encode a ++ std_encode b.
Proof.
  induction a as [|a0|a0 a1|a0 a1 a2 r IH] using list_ind3; intros Hmod.
  - reflexivity.
  - discriminate Hmod.
  - discriminate Hmod.
  - cbn [app std_encode]. rewrite IH; [reflexivity|].
    cbn [List.length] in Hmod. rewrite !Nat2Z.inj_succ in Hmod.
    Z.div_mod_to_equations. lia.
Qed.

(** X5.  A buffer cut at a multiple of three bytes is encoded piece by
    piece: the encoding of the whole is the encoding of the first piece
    followed by the encoding of the rest, in either mode. *)
Theorem base64_encode_app (a b : list byte) (url : bool) :
  Z.of_nat (List.length a) mod 3 = 0 ->
  Z.of_nat (List.length (a ++ b)) < UINT_MODULUS ->
  exists out_a out_b,
    base64_encode a (Z.of_nat (List.length a)) url = Some out_a /\
    base64_encode b (Z.of_nat (List.length b)) url = Some out_b /\
    base64_encode (a ++ b) (Z.of_nat (List.length (a ++ b))) url =
      Some (out_a ++ out_b)%string.
Proof.
  intros Hmod Hlen.
  assert (Hab : Z.of_nat (List.length (a ++ b)) =
                Z.of_nat (List.length a) + Z.of_nat (List.length b))
    by (rewrite length_app; lia).
  eexists. eexists.
  split; [apply base64_encode_below; lia|].
  split; [apply base64_encode_below; lia|].
  rewrite base64_encode_below by exact Hlen.
  rewrite std_encode_app by exact Hmod.
  rewrite map_app, string_of_list_ascii_app. reflexivity.
Qed.

Lemma base64_encode_app_witness :
  Z.of_nat (List.length (list_byte_of_string "Man")) mod 3 = 0 /\
  Z.of_nat (List.length (list_byte_of_string "Man" ++ list_byte_of_string "Ma")) <
    UINT_MODULUS /\
  exists out_a out_b,
    base64_encode (list_byte_of_string "Man")
      (Z.of_nat (List.length (list_byte_of_string "Man"))) false = Some out_a /\
    base64_encode (list_byte_of_string "Ma")
      (Z.of_nat (List.length (list_byte_of_string "Ma"))) false = Some out_b /\
    base64_encode (list_byte_of_string "Man" ++ list_byte_of_string "Ma")
      (Z.of_nat (List.length (list_byte_of_string "Man" ++ list_byte_of_string "Ma")))
      false = Some (out_a ++ out_b)%string.
Proof.
  assert (H1 : Z.of_nat (List.length (list_byte_of_string "Man")) mod 3 = 0)
    by reflexivity.
  assert (H2 : Z.of_nat
                 (List.length (list_byte_of_string "Man" ++ list_byte_of_string "Ma")) <
               UINT_MODULUS) by reflexivity.
  split; [exact H1|]. split; [exact H2|].
  exact (base64_encode_app (list_byte_of_string "Man")
           (list_byte_of_string "Ma") false H1 H2).
Defined.

(** *** When the encoder returns *)

Lemma base64_encode_returned (bytes : list byte) (url : bool) (out : string) :
  base64_encode bytes (Z.of_nat (List.length bytes)) url = Some out ->
  Z.of_nat (List.length bytes) < UINT_MODULUS.
Proof.
  intros Hout.
  destruct (Z_lt_le_dec (Z.of_nat (List.length bytes)) UINT_MODULUS) as [H|H];
    [exact H|].
  unfold base64_encode in Hout.
  rewrite base64_encode_fuel_diverges in Hout by exact H. discriminate Hout.
Qed.

(** X6.  In either mode the encoder returns a string exactly for the
    buffers shorter than [2 ^ 32] bytes; for every longer buffer the loop
    is never left, however long it is followed. *)
Theorem base64_encode_returns_iff (bytes : list byte) (url : bool) :
  ((exists out,
      base64_encode bytes (Z.of_nat (List.length bytes)) url = Some out) <->
   Z.of_nat (List.length bytes) < UINT_MODULUS) /\
  ((forall fuel,
      base64_encode_fuel fuel bytes (Z.of_nat (List.length bytes)) url = None) <->
   UINT_MODULUS <= Z.of_nat (List.length bytes)).
Proof.
  split; split.
  - intros [out Hout]. exact (base64_encode_returned _ _ _ Hout).
  - intros H. eexists. apply base64_encode_below. exact H.
  - intros Hnone.
    destruct (Z_lt_le_dec (Z.of_nat (List.length bytes)) UINT_MODULUS) as [H|H];
      [|exact H].
    pose proof (base64_encode_below bytes url H) as Hsome.
    unfold base64_encode in Hsome. rewrite Hnone in Hsome. discriminate Hsome.
  - intros H fuel. apply base64_encode_fuel_diverges. exact H.
Qed.

(** The shape of URL-mode output: symbols of the URL table, then [.] where
    standard base64 pads with [=]; none of [+], [/] and [=] occurs. *)
Lemma base64_encode_url_shape (bytes : list byte) :
  Z.of_nat (List.length bytes) < UINT_MODULUS ->
  exists out symbols,
    base64_encode bytes (Z.of_nat (List.length bytes)) true = Some out /\
    list_ascii_of_string out =
      symbols ++
      repeat "."%char (Z.to_nat (padding_count (Z.of_nat (List.length bytes)))) /\
    Forall (fun c => exists v, 0 <= v < 64 /\ c = char_at (base64_chars true) v)
      symbols /\
    Forall (fun c => url_safe c = true) (list_ascii_of_string out).
Proof.
  intros Hlen.
  destruct (std_encode_padding bytes) as (symbols & Heq & Hall).
  eexists. exists (map url_char symbols).
  split; [apply (base64_encode_below bytes true Hlen)|].
  rewrite list_ascii_of_string_of_list_ascii. cbn [mode_char].
  split; [|split].
  - rewrite Heq, map_app, map_repeat. reflexivity.
  - apply Forall_forall. intros c Hc. apply in_map_iff in Hc.
    destruct Hc as (c0 & <- & Hc0).
    rewrite Forall_forall in Hall. destruct (Hall _ Hc0) as (v & Hv & ->).
    exists v. split; [exact Hv|].
    rewrite table_url, table_std by exact Hv. reflexivity.
  - apply Forall_forall. intros c Hc. apply in_map_iff in Hc.
    destruct Hc as (c0 & <- & Hc0).
    pose proof (std_encode_chars bytes) as Hchars.
    rewrite Forall_forall in Hchars.
    apply (std_char_url_char c0 (Hchars _ Hc0)).
Qed.

End MoreBase64Facts.

(** * Further properties of the node *)

Section MoreNodeFacts.

Context {E : Engine}.

Local Open Scope monad_scope.

Ltac step_through refl trans prim :=
  repeat first
    [ apply (preserves_ret _ refl)
    | apply (preserves_get _ refl)
    | apply preserves_fail
    | apply (preserves_bind _ trans); [|intros ?]
    | apply (preserves_for_each _ refl trans); intros ?
    | apply preserves_modify; intros ?; prim
    | match goal with
      | |- preserves _ (if ?b then _ else _) => destruct b
      | |- preserves _ (match ?x with _ => _ end) => destruct x
      end ].

Lemma execute_setup_resolves_nothing (gh : GoalHandle) :
  preserves (extends (fun e => is_resolution_event e = false))
    (execute_setup gh).
Proof.
  unfold execute_setup, encode_image, llava_reset_call, llava_free_image_call,
    llava_load_image_call, update_sampling_params_call,
    base64_encode_default_url.
  step_through (extends_refl (fun e => is_resolution_event e = false))
    (extends_trans (fun e => is_resolution_event e = false))
    ltac:(first [ apply extends_log; [reflexivity | reflexivity]
                | apply extends_silent; reflexivity ]).
Qed.

Lemma filter_none (A : Type) (f : A -> bool) (l : list A) :
  Forall (fun x => f x = false) l -> filter f l = [].
Proof.
  induction 1 as [|x l Hx _ IH]; cbn; [reflexivity|]. rewrite Hx. exact IH.
Qed.

Lemma feedback_events_resolve_nothing (o : option GoalHandle)
    (units : list completion_output) :
  filter is_resolution_event (feedback_events o units) = [].
Proof.
  apply filter_none. eapply Forall_impl; [|apply feedback_events_kind].
  cbn beta. tauto.
Qed.

Lemma execute_setup_fault (gh : GoalHandle) (s : State) (f : Fault) :
  execute_setup gh s = inl f -> execute gh s = inl f.
Proof.
  intros H. unfold execute, execute_generate.
  rewrite bind_bind. unfold bind at 1. rewrite H. reflexivity.
Qed.

(** [execute] up to the end of the aggregation loop when the member holds
    [cur], whatever handle [execute] was started with. *)
Lemma execute_generate_run_member (gh cur : GoalHandle) (s s1 : State) :
  execute_setup gh s = inr (true, s1) -> goal_handle_ s = Some cur ->
  let units :=
    fst (llava_generate (prompt (get_goal gh)) true (gpt_params s1) (llava s1)) in
  let l' :=
    snd (llava_generate (prompt (get_goal gh)) true (gpt_params s1) (llava s1)) in
  execute_generate gh s =
  inr (Some (aggregated units),
       log_all
         (ev_generate_response (prompt (get_goal gh)) ::
          feedback_events (Some cur) units)
         (set_llava l' s1)).
Proof.
  intros Hsetup Hmem. cbv zeta.
  pose proof (framed_execute_setup gh _ _ _ Hsetup) as (Hgh & _).
  unfold execute_generate.
  rewrite (bind_run _ _ _ _ _ _ _ Hsetup).
  cbn [negb]. cbv iota.
  rewrite (bind_run _ _ _ _ _ _ _ (generate_response_send_text _ _ _)).
  mrun. rewrite aggregate_all, Hgh, Hmem. reflexivity.
Qed.

(** X8.  What a goal request does to the node.  It is rejected exactly when
    the member holds an active handle, and then the member, every handle's
    status, the threads and the trace are as before.  Otherwise it is
    accepted for execution: the new handle takes the place of whatever the
    member held, it is executing, and exactly one [execute] thread has
    been started for it.  A goal is never deferred. *)
Theorem goal_request_effects (goal : Goal) (s : State) :
  exists resp s',
    server_goal_request goal s = inr (resp, s') /\
    match resp with
    | REJECT =>
        (exists cur, goal_handle_ s = Some cur /\
                     status_active (status s (uuid cur)) = true) /\
        goal_handle_ s' = goal_handle_ s /\ status s' = status s /\
        threads s' = threads s /\ trace s' = trace s /\
        llava s' = llava s /\ gpt_params s' = gpt_params s
    | ACCEPT_AND_EXECUTE =>
        let gh := mk_GoalHandle (next_uuid s) goal in
        (forall cur, goal_handle_ s = Some cur ->
                     status_active (status s (uuid cur)) = false) /\
        goal_handle_ s' = Some gh /\
        status s' (uuid gh) = STATUS_EXECUTING /\
        threads s' = threads s ++ [mk_Thread gh PC_START] /\
        trace s' = trace s /\
        llava s' = llava s /\ gpt_params s' = gpt_params s
    | ACCEPT_AND_DEFER => False
    end.
Proof.
  unfold server_goal_request.
  destruct (goal_handle_ s) as [cur|] eqn:Hgh;
    [destruct (status_active (status s (uuid cur))) eqn:Hact|].
  - exists REJECT. eexists. split.
    + mstep. mstep. rewrite (bind_run _ _ _ _ _ _ _ (handle_goal_run _ _ _)).
      fields. rewrite Hgh, Hact. mrun. reflexivity.
    + fields. split; [exists cur; auto|]. repeat split; assumption || reflexivity.
  - exists ACCEPT_AND_EXECUTE. eexists. split.
    + mstep. mstep. rewrite (bind_run _ _ _ _ _ _ _ (handle_goal_run _ _ _)).
      fields. rewrite Hgh, Hact. unfold handle_accepted, spawn_execute.
      mrun. reflexivity.
    + cbv zeta. fields. cbn [uuid]. rewrite Nat.eqb_refl.
      split; [intros c Hc; inversion Hc; subst; exact Hact|].
      repeat split; reflexivity.
  - exists ACCEPT_AND_EXECUTE. eexists. split.
    + mstep. mstep. rewrite (bind_run _ _ _ _ _ _ _ (handle_goal_run _ _ _)).
      fields. rewrite Hgh. unfold handle_accepted, spawn_execute.
      mrun. reflexivity.
    + cbv zeta. fields. cbn [uuid]. rewrite Nat.eqb_refl.
      split; [intros c Hc; discriminate Hc|].
      repeat split; reflexivity.
Qed.

(** X9.  From the state the constructor leaves, and as long as no
    [execute] is interrupted between two of its stretches, goal requests,
    cancel requests, a shutdown and whole runs of [execute] in any order
    leave at most one coordinator running, and it runs for the handle in
    the member, which is executing or being canceled. *)
Theorem constructed_node_runs_one_goal (l : Llava) (params : GptParams)
    (schedule : list Action) (s' : State) :
  forallb atomic schedule = true ->
  run schedule (init_state l params) = inr (tt, s') ->
  (List.length (running s') <= 1)%nat /\
  Forall (fun t => accepted (th_goal_handle t) s') (running s').
Proof.
  intros Hat Hrun.
  destruct (uninterrupted_runs_one_goal schedule _ _ Hat
              (init_state_one_goal l params) Hrun) as (Hlen & _ & _ & Hacc).
  split; assumption.
Qed.

(** X10.  Whether the next goal is admitted after [execute] has returned.
    After an abort the member still holds the handle, but the handle is no
    longer active, and after a resolution the member is null: in both
    cases the next goal is accepted.  After a run that ended while the
    process was shutting down the handle is still in the member and still
    active: every later goal is rejected. *)
Theorem admission_after_execute (gh : GoalHandle) (s s1 : State) (loaded : bool) :
  execute_setup gh s = inr (loaded, s1) ->
  accepted gh s ->
  exists s',
    execute gh s = inr (tt, s') /\
    forall (id : nat) (goal : Goal),
      handle_goal id goal s' =
      inr (if negb loaded || rclcpp_ok s then ACCEPT_AND_EXECUTE else REJECT, s').
Proof.
  intros Hsetup Hacc.
  pose proof (framed_execute_setup gh _ _ _ Hsetup) as (Hgh & Hst & Hok & _).
  destruct Hacc as [Hmem Hact]. pose proof (conj Hmem Hact) as Hacc.
  destruct loaded.
  - pose proof (execute_generation_run gh s s1 Hsetup Hacc) as Hrun.
    cbv zeta in Hrun. eexists. split; [exact Hrun|].
    intros id goal. rewrite handle_goal_run. cbn [negb orb].
    destruct (rclcpp_ok s).
    + reflexivity.
    + fields. rewrite Hgh, Hmem, Hst.
      rewrite (executing_or_canceling_active _ Hact). reflexivity.
  - eexists. split; [apply (execute_abort_run gh s s1 Hsetup Hacc)|].
    intros id goal. rewrite handle_goal_run. fields.
    rewrite Hgh, Hmem, Nat.eqb_refl. reflexivity.
Qed.

(** X11.  [execute] reports to the handle in the member, not to the handle
    it was started with.  When the member holds [cur] while [execute] runs
    for [gh], and the run reaches a resolution (the image failed to load,
    or the process is not shutting down), then every feedback message and
    the result (aggregated from the prompt of [gh]) go to [cur], [cur] is
    the goal that is aborted, canceled or succeeded, and no other goal
    changes its status: the goal of [gh], if it is another one, is left as
    it was. *)
Theorem execute_reports_to_member_handle (gh cur : GoalHandle) (s s1 : State)
    (loaded : bool) :
  execute_setup gh s = inr (loaded, s1) ->
  accepted cur s ->
  negb loaded || rclcpp_ok s = true ->
  let units :=
    fst (llava_generate (prompt (get_goal gh)) true (gpt_params s1) (llava s1)) in
  let canceling := status_canceling (status s (uuid cur)) in
  exists s',
    execute gh s = inr (tt, s') /\
    events_since s1 s' =
      (if loaded
       then ev_generate_response (prompt (get_goal gh)) ::
            feedback_events (Some cur) units ++
            [if canceling then ev_canceled (uuid cur) (aggregated units)
             else ev_succeed (uuid cur) (aggregated units)]
       else [ev_abort (uuid cur) (mk_Result Response.empty)]) /\
    status s' (uuid cur) =
      (if loaded
       then if canceling then STATUS_CANCELED else STATUS_SUCCEEDED
       else STATUS_ABORTED) /\
    (forall id, id <> uuid cur -> status s' id = status s id).
Proof.
  intros Hsetup Hacc Hreach. cbv zeta.
  pose proof (framed_execute_setup gh _ _ _ Hsetup) as Hframe.
  assert (Hacc1 : accepted cur s1) by (eapply accepted_frame; eassumption).
  destruct Hframe as (Hgh & Hst & Hok & _).
  destruct Hacc as [Hmem Hact].
  destruct loaded; cbn [negb orb] in Hreach.
  - eexists. split.
    + unfold execute.
      rewrite (bind_run _ _ _ _ _ _ _
                 (execute_generate_run_member gh cur s s1 Hsetup Hmem)).
      mstep. fields. rewrite Hok, Hreach.
      erewrite bind_run.
      2:{ apply (execute_resolve_run cur). destruct Hacc1 as [Hg Hs].
          split; fields; assumption. }
      unfold execute_clear. mrun. rewrite Hst. reflexivity.
    + destruct (status_canceling (status s (uuid cur))).
      * split; [apply events_since_app; fields; rewrite <- app_assoc; reflexivity|].
        split; [fields; rewrite Nat.eqb_refl; reflexivity|].
        intros id Hid. fields. apply Nat.eqb_neq in Hid. rewrite Hid, Hst.
        reflexivity.
      * split; [apply events_since_app; fields; rewrite <- app_assoc; reflexivity|].
        split; [fields; rewrite Nat.eqb_refl; reflexivity|].
        intros id Hid. fields. apply Nat.eqb_neq in Hid. rewrite Hid, Hst.
        reflexivity.
  - destruct Hacc1 as [Hgh1 Hst1]. eexists. split.
    + unfold execute, execute_generate.
      rewrite bind_bind, (bind_run _ _ _ _ _ _ _ Hsetup).
      cbn [negb]. cbv iota. rewrite !bind_bind.
      rewrite (bind_run _ _ _ _ _ _ _ (this_goal_handle_run cur s1 Hgh1)).
      rewrite bind_bind.
      rewrite (bind_run _ _ _ _ _ _ _ (abort_run cur _ s1 Hst1)).
      mrun. reflexivity.
    + split; [apply events_since_app; fields; reflexivity|].
      split; [fields; rewrite Nat.eqb_refl; reflexivity|].
      intros id Hid. fields. apply Nat.eqb_neq in Hid. rewrite Hid, Hst.
      reflexivity.
Qed.

(** X12.  [execute] with a null member.  Feedback is skipped (the emitter
    tests the member), but [abort], [is_canceling], [canceled] and
    [succeed] are called through the member without a test: a run that
    reaches one of them dereferences the null pointer.  Only a run that
    generated while the process was shutting down returns, and it has
    published nothing. *)
Theorem execute_with_null_member (gh : GoalHandle) (s s1 : State)
    (loaded : bool) :
  goal_handle_ s = None ->
  execute_setup gh s = inr (loaded, s1) ->
  let p := prompt (get_goal gh) in
  execute gh s =
  if negb loaded || rclcpp_ok s then inl NULL_DEREFERENCE
  else inr (tt, log (ev_generate_response p)
                  (set_llava (snd (llava_generate p true (gpt_params s1) (llava s1)))
                     s1)).
Proof.
  intros Hmem Hsetup. cbv zeta.
  pose proof (framed_execute_setup gh _ _ _ Hsetup) as (Hgh & _ & Hok & _).
  rewrite Hmem in Hgh.
  unfold execute, execute_generate.
  rewrite bind_bind, (bind_run _ _ _ _ _ _ _ Hsetup).
  destruct loaded; cbn [negb orb]; cbv iota.
  - rewrite bind_bind.
    rewrite (bind_run _ _ _ _ _ _ _ (generate_response_send_text _ _ _)).
    mstep. mstep. fields. rewrite Hok, Hgh.
    destruct (rclcpp_ok s).
    + unfold execute_resolve, this_goal_handle_. mstep. mstep. mstep. fields.
      rewrite Hgh. mrun. reflexivity.
    + mrun. cbn [feedback_events]. same_state state_ext.
  - unfold this_goal_handle_. mstep. mstep. mstep. rewrite Hgh. mrun.
    reflexivity.
Qed.

(** X13.  The result runs parallel to the feedback.  Unit by unit, in
    generation order, the result holds the token that was published, the
    text is the concatenation of the published texts, and the alternates
    are the ones that were published; there are as many tokens and
    probability arrays as units.  The one difference: a feedback message
    names the chosen token in its probability array, the result's arrays
    leave it at zero. *)
Theorem result_parallel_to_feedback (units : list completion_output) :
  let r := response (fold_left aggregate units (mk_Result Response.empty)) in
  let published := map (fun c => partial_response (make_feedback c)) units in
  Response.tokens r = map PartialResponse.token published /\
  Response.text r =
    fold_right String.append EmptyString (map PartialResponse.text published) /\
  map TokenProbArray.data (Response.probs r) =
    map (fun p => TokenProbArray.data (PartialResponse.probs p)) published /\
  map (fun p => TokenProbArray.chosen_token (PartialResponse.probs p)) published =
    map co_token units /\
  Forall (fun m => TokenProbArray.chosen_token m = 0) (Response.probs r) /\
  List.length (Response.tokens r) = List.length units /\
  List.length (Response.probs r) = List.length units.
Proof.
  cbv zeta. rewrite aggregate_all. unfold aggregated, detokenized_text.
  cbn [response Response.tokens Response.text Response.probs].
  rewrite !map_map, !length_map.
  unfold make_feedback.
  cbn [partial_response PartialResponse.token PartialResponse.text
       PartialResponse.probs].
  split; [reflexivity|]. split; [reflexivity|].
  split; [apply map_ext; intros c; rewrite push_probs_map; reflexivity|].
  split; [apply map_ext; intros c; rewrite push_probs_map; reflexivity|].
  split; [|split; reflexivity].
  apply Forall_forall. intros m Hm. apply in_map_iff in Hm.
  destruct Hm as (c & <- & _). reflexivity.
Qed.

Lemma generation_resolves_nothing (evs : list Event) (p : string)
    (o : option GoalHandle) (units : list completion_output) :
  filter is_resolution_event evs = [] ->
  filter is_resolution_event
    (evs ++ ev_generate_response p :: feedback_events o units) = [].
Proof.
  intros Hevs. rewrite filter_app, Hevs.
  change (filter is_resolution_event (feedback_events o units) = []).
  apply feedback_events_resolve_nothing.
Qed.

Lemma generation_resolves_once (evs : list Event) (p : string)
    (o : option GoalHandle) (units : list completion_output) (e : Event) :
  filter is_resolution_event evs = [] ->
  is_resolution_event e = true ->
  filter is_resolution_event
    (evs ++ (ev_generate_response p :: feedback_events o units) ++ [e]) = [e].
Proof.
  intros Hevs He.
  rewrite app_assoc, filter_app, (generation_resolves_nothing _ _ _ _ Hevs).
  cbn [filter app]. rewrite He. reflexivity.
Qed.

(** X14.  A run of [execute] that returns resolves at most once, and only
    the goal in the member: the calls it has made hold exactly one of
    [abort], [succeed] and [canceled], for the accepted goal, or none at
    all, and then the process was shutting down, and the handle is still
    in the member with its status unchanged. *)
Theorem execute_resolves_at_most_once (gh : GoalHandle) (s s' : State) :
  accepted gh s ->
  execute gh s = inr (tt, s') ->
  (filter is_resolution_event (events_since s s') = [] /\
   rclcpp_ok s = false /\ goal_handle_ s' = Some gh /\ status s' = status s) \/
  (exists r,
     filter is_resolution_event (events_since s s') = [ev_abort (uuid gh) r] \/
     filter is_resolution_event (events_since s s') = [ev_succeed (uuid gh) r] \/
     filter is_resolution_event (events_since s s') = [ev_canceled (uuid gh) r]).
Proof.
  intros Hacc Hrun.
  destruct (execute_setup gh s) as [f|[loaded s1]] eqn:Hsetup.
  { rewrite (execute_setup_fault _ _ _ Hsetup) in Hrun. discriminate Hrun. }
  destruct (execute_setup_resolves_nothing gh _ _ _ Hsetup) as (evs & Htr & Hevs).
  apply filter_none in Hevs.
  pose proof (framed_execute_setup gh _ _ _ Hsetup) as (Hgh & Hst & _).
  destruct loaded.
  - pose proof (execute_generation_run gh s s1 Hsetup Hacc) as Hgen.
    cbv zeta in Hgen. rewrite Hgen in Hrun. clear Hgen.
    destruct (rclcpp_ok s).
    + right. eexists.
      destruct (status_canceling (status s (uuid gh)));
        injection Hrun as <-; [right; right | right; left];
        (erewrite events_since_app;
         [|fields; rewrite Htr, <- !app_assoc; reflexivity]);
        apply (generation_resolves_once evs _ (Some gh) _ _ Hevs); reflexivity.
    + left. injection Hrun as <-.
      split.
      * erewrite events_since_app;
          [|fields; rewrite Htr, <- !app_assoc; reflexivity].
        apply (generation_resolves_nothing evs _ (Some gh) _ Hevs).
      * split; [reflexivity|]. fields. destruct Hacc as [Hmem _].
        split; congruence.
  - rewrite (execute_abort_run gh s s1 Hsetup Hacc) in Hrun.
    injection Hrun as <-.
    right. eexists. left.
    erewrite events_since_app;
      [|fields; rewrite Htr, <- !app_assoc; reflexivity].
    rewrite filter_app, Hevs. reflexivity.
Qed.

Lemma execute_setup_conversion_failure (gh : GoalHandle) (s : State) :
  (0 < List.length (Image.data (image (get_goal gh))))%nat ->
  cv_imencode_jpg (image (get_goal gh)) = None ->
  execute_setup gh s = inl CV_EXCEPTION.
Proof.
  intros Hlen Hcv.
  unfold execute_setup, encode_image, update_sampling_params_call,
    llava_reset_call.
  replace (0 <? Z.of_nat (List.length (Image.data (image (get_goal gh)))))
    with true by (symmetry; apply Z.ltb_lt; lia).
  rewrite Hcv.
  destruct (reset (get_goal gh)); mrun; reflexivity.
Qed.

Lemma execute_setup_encoder_diverges (gh : GoalHandle) (s : State)
    (buf : list byte) :
  (0 < List.length (Image.data (image (get_goal gh))))%nat ->
  cv_imencode_jpg (image (get_goal gh)) = Some buf ->
  base64_encode buf (Z.of_nat (List.length buf)) false = None ->
  execute_setup gh s = inl NO_RETURN.
Proof.
  intros Hlen Hcv Henc.
  unfold execute_setup, encode_image, update_sampling_params_call,
    llava_reset_call, base64_encode_default_url.
  replace (0 <? Z.of_nat (List.length (Image.data (image (get_goal gh)))))
    with true by (symmetry; apply Z.ltb_lt; lia).
  rewrite Hcv.
  destruct (reset (get_goal gh)); mrun; rewrite Henc; mrun; reflexivity.
Qed.


(** X16.  What the engine is given as the image.  When a goal carries
    image data and the image step of [execute] completes, the codec
    produced a buffer of fewer than [2 ^ 32] bytes, the string handed to
    [load_image] is that buffer in standard base64 (it decodes to the
    buffer), the answer of [load_image] is what the step returns, and the
    calls of the step are the reset (if asked for), the sampling
    parameters, the conversion, the encoder in standard mode and
    [load_image]: [free_image] is not called. *)
Theorem execute_setup_loads_encoded_image (gh : GoalHandle) (s s1 : State)
    (loaded : bool) :
  (0 < List.length (Image.data (image (get_goal gh))))%nat ->
  execute_setup gh s = inr (loaded, s1) ->
  let g := get_goal gh in
  let l1 := reset_engine g (llava s) in
  exists (buf : list byte) (encoded : string),
    cv_imencode_jpg (image g) = Some buf /\
    Z.of_nat (List.length buf) < UINT_MODULUS /\
    std_decode (list_ascii_of_string encoded) = Some buf /\
    loaded = fst (llava_load_image encoded l1) /\
    llava s1 = snd (llava_load_image encoded l1) /\
    events_since s s1 =
      reset_events g ++
      [ev_update_sampling_params (llava_get_n_vocab l1) (llava_get_token_eos l1);
       ev_cv_imencode (image g);
       ev_base64_encode (Z.of_nat (List.length buf)) false;
       ev_load_image encoded loaded].
Proof.
  intros Hlen Hsetup. cbv zeta.
  destruct (cv_imencode_jpg (image (get_goal gh))) as [buf|] eqn:Hcv.
  2:{ rewrite (execute_setup_conversion_failure gh s Hlen Hcv) in Hsetup.
      discriminate Hsetup. }
  destruct (base64_encode buf (Z.of_nat (List.length buf)) false)
    as [encoded|] eqn:Henc.
  2:{ rewrite (execute_setup_encoder_diverges gh s buf Hlen Hcv Henc) in Hsetup.
      discriminate Hsetup. }
  assert (Hsmall : Z.of_nat (List.length buf) < UINT_MODULUS).
  { exact (base64_encode_returned _ _ _ Henc). }
  pose proof (execute_setup_image gh s buf encoded Hlen Hcv Henc) as Hrun.
  cbv zeta in Hrun. rewrite Hrun in Hsetup. inversion Hsetup; subst; clear Hsetup.
  exists buf, encoded.
  split; [reflexivity|]. split; [exact Hsmall|].
  split.
  { rewrite (base64_encode_std buf Hsmall) in Henc. inversion Henc.
    rewrite list_ascii_of_string_of_list_ascii. apply std_decode_encode. }
  split; [reflexivity|]. split; [reflexivity|].
  apply events_since_app. reflexivity.
Qed.

(** *** The stretches of a thread make up [execute] *)

Lemma bind_fault (A B : Type) (m : M State A) (k : A -> M State B)
    (s : State) (f : Fault) :
  m s = inl f -> bind m k s = inl f.
Proof. intros H. unfold bind. rewrite H. reflexivity. Qed.

Lemma ignores_ret (A : Type) (a : A) : ignores_threads (ret a).
Proof. intros ts s. reflexivity. Qed.

Lemma ignores_fail (A : Type) (f : Fault) : ignores_threads (@fail State A f).
Proof. intros ts s. reflexivity. Qed.

Lemma ignores_get (A : Type) (proj : State -> A) :
  (forall ts s, proj (set_threads ts s) = proj s) -> ignores_threads (get proj).
Proof.
  intros H ts s. rewrite !run_get. cbn [with_threads]. rewrite H. reflexivity.
Qed.

Lemma ignores_modify (f : State -> State) :
  (forall ts s, f (set_threads ts s) = set_threads ts (f s)) ->
  ignores_threads (modify f).
Proof.
  intros H ts s. rewrite !run_modify. cbn [with_threads]. rewrite H. reflexivity.
Qed.

Lemma ignores_bind (A B : Type) (m : M State A) (k : A -> M State B) :
  ignores_threads m -> (forall a, ignores_threads (k a)) ->
  ignores_threads (bind m k).
Proof.
  intros Hm Hk ts s. unfold bind. rewrite Hm.
  destruct (m s) as [f|[a s1]]; cbn [with_threads]; [reflexivity | apply Hk].
Qed.

Lemma ignores_for_each (A : Type) (xs : list A) (body : A -> M State unit) :
  (forall x, ignores_threads (body x)) -> ignores_threads (for_each xs body).
Proof.
  intros Hbody. induction xs as [|x xs IH]; cbn [for_each].
  - apply ignores_ret.
  - apply ignores_bind; [apply Hbody | intros _; exact IH].
Qed.

Ltac ignore_threads :=
  repeat first
    [ apply ignores_ret
    | apply ignores_fail
    | apply ignores_get; intros ? ?; reflexivity
    | apply ignores_modify; intros ? ?; reflexivity
    | apply ignores_bind; [|intros ?]
    | apply ignores_for_each; intros ?
    | match goal with
      | |- ignores_threads (if ?b then _ else _) => destruct b
      | |- ignores_threads (match ?x with _ => _ end) => destruct x
      end ].

Lemma execute_resolve_ignores_threads (result : Result) :
  ignores_threads (execute_resolve result).
Proof.
  unfold execute_resolve, this_goal_handle_, is_canceling, canceled, succeed,
    terminate.
  ignore_threads.
Qed.

Lemma execute_resolve_same_threads (result : Result) :
  preserves same_threads (execute_resolve result).
Proof.
  unfold execute_resolve, this_goal_handle_, is_canceling, canceled, succeed,
    terminate.
  step_through same_threads_refl same_threads_trans ltac:(reflexivity).
Qed.

Lemma set_threads_same (s : State) : set_threads (threads s) s = s.
Proof. destruct s. reflexivity. Qed.

Lemma advance_thread_done_run (i k : nat) (s : State) (t : Thread) :
  nth_error (threads s) i = Some t -> th_pc t = PC_DONE ->
  advance_thread i k s = inr (tt, s).
Proof.
  intros Ht Hpc. induction k as [|k IH]; [reflexivity|].
  rewrite advance_thread_S, Ht, (thread_step_done t s Hpc).
  rewrite (replace_nth_same _ _ _ _ Ht), set_threads_same. exact IH.
Qed.

(** The three stretches in which a thread runs are [execute]: a
    thread that has not started and is run to the end does to the node, the
    engine, the goal handles and the trace exactly what one call of
    [execute] with its handle does, fault for fault and state for state,
    and is then done. *)
Lemma thread_run_is_execute (i : nat) (gh : GoalHandle) (s : State) :
  nth_error (threads s) i = Some (mk_Thread gh PC_START) ->
  step (THREAD_RUN i) s =
  (execute gh ;;;
   modify (fun s' =>
     set_threads (replace_nth i (mk_Thread gh PC_DONE) (threads s')) s')) s.
Proof.
  intros Ht. cbn [step]. unfold execute. rewrite !bind_bind.
  rewrite advance_thread_S, Ht.
  destruct (execute_generate gh s) as [f|[o s1]] eqn:Hgen.
  { unfold thread_step. cbn [th_pc th_goal_handle].
    rewrite !(bind_fault _ _ _ _ _ _ Hgen). reflexivity. }
  assert (Hstep1 : thread_step (mk_Thread gh PC_START) s =
                   inr (mk_Thread gh match o with
                                     | None => PC_DONE
                                     | Some result => PC_RESOLVE result
                                     end, s1)).
  { unfold thread_step. cbn [th_pc th_goal_handle].
    rewrite (bind_run _ _ _ _ _ _ _ Hgen). destruct o; reflexivity. }
  pose proof (thread_step_same_threads _ _ _ _ Hstep1) as Hsame1.
  unfold same_threads in Hsame1.
  rewrite Hstep1, (bind_run _ _ _ _ _ _ _ Hgen).
  destruct o as [result|].
  2:{ mrun. apply (advance_thread_done_run i 2 _ (mk_Thread gh PC_DONE));
        [fields; eapply nth_error_replace_nth; rewrite Hsame1; exact Ht
        | reflexivity]. }
  rewrite advance_thread_S. fields.
  rewrite (nth_error_replace_nth _ _ _ _ (mk_Thread gh (PC_RESOLVE result))
             (eq_trans (f_equal (fun l => nth_error l i) Hsame1) Ht)).
  unfold thread_step at 1. cbn [th_pc th_goal_handle].
  mrun.
  destruct (rclcpp_ok s1).
  2:{ mrun. rewrite replace_nth_twice.
      apply (advance_thread_done_run i 1 _ (mk_Thread gh PC_DONE));
        [fields; eapply nth_error_replace_nth; rewrite Hsame1; exact Ht
        | reflexivity]. }
  rewrite !bind_bind.
  unfold bind at 1. rewrite execute_resolve_ignores_threads.
  unfold bind at 1.
  destruct (execute_resolve result s1) as [f|[[] s2]] eqn:Hres;
    cbn [with_threads]; [reflexivity|].
  pose proof (execute_resolve_same_threads result _ _ _ Hres) as Hsame2.
  unfold same_threads in Hsame2.
  mrun. rewrite replace_nth_twice.
  rewrite advance_thread_S. fields.
  rewrite (nth_error_replace_nth _ _ _ _ (mk_Thread gh PC_CLEAR)
             (eq_trans (f_equal (fun l => nth_error l i) Hsame1) Ht)).
  unfold thread_step, execute_clear. cbn [th_pc th_goal_handle].
  mrun. rewrite replace_nth_twice, Hsame2. reflexivity.
Qed.

(** X18.  A cancel request for the goal that is executing, followed by
    [execute]: the engine is told to cancel before the run starts, and a
    run that generates and finds the process up ends the goal as canceled,
    never as succeeded, with the result aggregated from whatever the
    cancelled engine still produced. *)
Theorem cancel_request_then_execute (gh : GoalHandle) (s s1 s2 : State) :
  goal_handle_ s = Some gh ->
  status s (uuid gh) = STATUS_EXECUTING ->
  rclcpp_ok s = true ->
  server_cancel_request gh s = inr (tt, s1) ->
  execute_setup gh s1 = inr (true, s2) ->
  let units :=
    fst (llava_generate (prompt (get_goal gh)) true (gpt_params s2) (llava s2)) in
  llava s1 = llava_cancel (llava s) /\
  exists s',
    execute gh s1 = inr (tt, s') /\
    status s' (uuid gh) = STATUS_CANCELED /\
    filter is_resolution_event (events_since s s') =
      [ev_canceled (uuid gh) (aggregated units)] /\
    goal_handle_ s' = None.
Proof.
  intros Hmem Hst Hok Hcancel Hsetup. cbv zeta.
  unfold server_cancel_request, handle_cancel, llava_cancel_call in Hcancel.
  revert Hcancel. mstep. rewrite Hst. mrun. intros Hcancel.
  injection Hcancel as <-.
  split; [reflexivity|].
  match type of Hsetup with execute_setup gh ?x = _ => set (sc := x) in * end.
  assert (Hacc : accepted gh sc).
  { split; [exact Hmem|]. subst sc. fields. rewrite Nat.eqb_refl. reflexivity. }
  pose proof (execute_generation_run gh sc s2 Hsetup Hacc) as Hrun.
  cbv zeta in Hrun.
  assert (Hok' : rclcpp_ok sc = true) by exact Hok.
  assert (Hc : status_canceling (status sc (uuid gh)) = true)
    by (subst sc; fields; rewrite Nat.eqb_refl; reflexivity).
  rewrite Hok', Hc in Hrun.
  eexists. split; [exact Hrun|].
  split; [fields; rewrite Nat.eqb_refl; reflexivity|].
  split; [|reflexivity].
  destruct (execute_setup_resolves_nothing gh _ _ _ Hsetup)
    as (evs & Htr & Hevs).
  apply filter_none in Hevs.
  erewrite events_since_app.
  2:{ fields. rewrite Htr. subst sc. fields. rewrite <- !app_assoc. reflexivity. }
  cbn [app filter is_resolution_event].
  apply (generation_resolves_once evs _ (Some gh) _ _ Hevs). reflexivity.
Qed.

(** *** The mode of the encoder on the image path *)

(** Whatever the image step hands to [load_image] is the codec's buffer in
    standard base64. *)
Lemma execute_setup_standard_image (gh : GoalHandle) :
  preserves (extends (standard_image gh)) (execute_setup gh).
Proof.
  intros s loaded s1 Hsetup.
  destruct (List.length (Image.data (image (get_goal gh)))) as [|n] eqn:Hlen.
  - pose proof (execute_setup_no_image gh s Hlen) as Hrun. cbv zeta in Hrun.
    rewrite Hrun in Hsetup. injection Hsetup as _ <-.
    eexists. split; [fields; reflexivity|].
    apply Forall_app. split.
    + unfold reset_events. destruct (reset (get_goal gh)); repeat constructor.
    + repeat constructor.
  - assert (Hpos : (0 < List.length (Image.data (image (get_goal gh))))%nat)
      by (rewrite Hlen; lia).
    destruct (cv_imencode_jpg (image (get_goal gh))) as [buf|] eqn:Hcv.
    2:{ rewrite (execute_setup_conversion_failure gh s Hpos Hcv) in Hsetup.
        discriminate Hsetup. }
    destruct (base64_encode buf (Z.of_nat (List.length buf)) false)
      as [encoded|] eqn:Henc.
    2:{ rewrite (execute_setup_encoder_diverges gh s buf Hpos Hcv Henc) in Hsetup.
        discriminate Hsetup. }
    pose proof (base64_encode_returned _ _ _ Henc) as Hsmall.
    pose proof (execute_setup_image gh s buf encoded Hpos Hcv Henc) as Hrun.
    cbv zeta in Hrun. rewrite Hrun in Hsetup. injection Hsetup as _ <-.
    eexists. split; [fields; reflexivity|].
    apply Forall_app. split.
    + unfold reset_events. destruct (reset (get_goal gh)); repeat constructor.
    + constructor; [exact I|]. constructor; [exact I|].
      constructor; [exact I|]. constructor; [|constructor].
      cbn [standard_image]. exists buf.
      split; [exact Hcv|]. split; [exact Henc|].
      rewrite (base64_encode_std buf Hsmall) in Henc. injection Henc as <-.
      apply list_ascii_of_string_of_list_ascii.
Qed.

Lemma execute_standard_image (gh : GoalHandle) :
  preserves (extends (standard_image gh)) (execute gh).
Proof.
  unfold execute, execute_generate.
  apply (preserves_bind _ (extends_trans (standard_image gh))).
  - apply (preserves_bind _ (extends_trans (standard_image gh)));
      [apply execute_setup_standard_image|].
    intros loaded.
    unfold generate_response, send_text, publish_feedback, this_goal_handle_,
      abort, terminate.
    step_through (extends_refl (standard_image gh))
      (extends_trans (standard_image gh))
      ltac:(first [ apply extends_log; [exact I | reflexivity]
                  | apply extends_silent; reflexivity ]).
  - intros o.
    unfold execute_resolve, execute_clear, this_goal_handle_, is_canceling,
      canceled, succeed, terminate.
    step_through (extends_refl (standard_image gh))
      (extends_trans (standard_image gh))
      ltac:(first [ apply extends_log; [exact I | reflexivity]
                  | apply extends_silent; reflexivity ]).
Qed.

(** C10.  The encoder has a URL mode: with [url] set, symbols 62 and 63
    are [-] and [_] and the trailing character is [.] instead of [=].  For
    every buffer the encoder returns for, its output is standard base64 in
    standard mode and standard base64 with exactly these three characters
    exchanged in URL mode: symbols of the URL table followed by [.] where
    the standard pads with [=], with no [+], [/] or [=] left.  [execute]
    calls the encoder with two arguments, so every call of the encoder a
    run of [execute] makes is in standard mode, and what the run hands to
    [load_image] is the codec's buffer in standard base64. *)
Theorem url_mode_is_never_exercised :
  char_at (base64_chars true) 62 = "-"%char /\
  char_at (base64_chars true) 63 = "_"%char /\
  trailing_char true = "."%char /\
  trailing_char true <> "="%char /\
  trailing_char false = "="%char /\
  (forall v, 0 <= v < 62 ->
     char_at (base64_chars true) v = char_at (base64_chars false) v) /\
  (forall fuel bytes in_len,
     base64_encode_fuel fuel bytes in_len true =
     option_map url_variant (base64_encode_fuel fuel bytes in_len false)) /\
  (forall (gh : GoalHandle) (s s' : State),
     execute gh s = inr (tt, s') ->
     Forall standard_mode (events_since s s')) /\
  (forall (bytes : list byte) (url : bool),
     Z.of_nat (List.length bytes) < UINT_MODULUS ->
     base64_encode bytes (Z.of_nat (List.length bytes)) url =
     Some (string_of_list_ascii (map (mode_char url) (std_encode bytes)))) /\
  (forall (bytes : list byte),
     Z.of_nat (List.length bytes) < UINT_MODULUS ->
     exists out symbols,
       base64_encode bytes (Z.of_nat (List.length bytes)) true = Some out /\
       list_ascii_of_string out =
         symbols ++
         repeat "."%char
           (Z.to_nat (padding_count (Z.of_nat (List.length bytes)))) /\
       Forall (fun c => exists v, 0 <= v < 64 /\
                                  c = char_at (base64_chars true) v) symbols /\
       Forall (fun c => url_safe c = true) (list_ascii_of_string out)) /\
  (forall (gh : GoalHandle) (s s' : State),
     execute gh s = inr (tt, s') ->
     Forall (standard_image gh) (events_since s s')).
Proof.
  destruct base64_encode_url_mode as (H62 & H63 & Ht & Hf & Hlow & Hrel).
  split; [exact H62|]. split; [exact H63|]. split; [exact Ht|].
  split; [rewrite Ht; discriminate|]. split; [exact Hf|].
  split; [exact Hlow|]. split; [exact Hrel|].
  split; [|split; [|split]].
  - intros gh s s' H.
    destruct (execute_standard gh _ _ _ H) as (evs & Htr & Hall).
    rewrite (events_since_app _ _ _ Htr). exact Hall.
  - exact base64_encode_below.
  - exact base64_encode_url_shape.
  - intros gh s s' H.
    destruct (execute_standard_image gh _ _ _ H) as (evs & Htr & Hall).
    rewrite (events_since_app _ _ _ Htr). exact Hall.
Qed.

End MoreNodeFacts.

(** *** The further properties on the small engine *)

Lemma constructed_node_runs_one_goal_witness :
  forallb atomic Toy.serial = true /\
  exists s',
    run Toy.serial Toy.state0 = inr (tt, s') /\
    map (fun t => uuid (th_goal_handle t)) (running s') = [4%nat] /\
    (List.length (running s') <= 1)%nat.
Proof.
  assert (H1 : forallb atomic Toy.serial = true) by reflexivity.
  assert (H2 : run Toy.serial Toy.state0 =
               inr (tt, final (run Toy.serial) Toy.state0))
    by (apply final_run; vm_compute; reflexivity).
  split; [exact H1|].
  exists (final (run Toy.serial) Toy.state0).
  split; [exact H2|]. split; [vm_compute; reflexivity|].
  exact (proj1 (constructed_node_runs_one_goal (E := Toy.engine)
                  Toy.llava0 (0, 0, 0) Toy.serial _ H1 H2)).
Defined.

Lemma admission_after_execute_witness :
  execute_setup (Toy.handle Toy.goal_text) (Toy.started_shutdown Toy.goal_text) =
    inr (true, final (execute_setup (Toy.handle Toy.goal_text))
                 (Toy.started_shutdown Toy.goal_text)) /\
  accepted (Toy.handle Toy.goal_text) (Toy.started_shutdown Toy.goal_text) /\
  exists s',
    execute (Toy.handle Toy.goal_text) (Toy.started_shutdown Toy.goal_text) =
      inr (tt, s') /\
    handle_goal 1 Toy.goal_other s' = inr (REJECT, s').
Proof.
  assert (H1 : execute_setup (Toy.handle Toy.goal_text)
                 (Toy.started_shutdown Toy.goal_text) =
               inr (true, final (execute_setup (Toy.handle Toy.goal_text))
                            (Toy.started_shutdown Toy.goal_text)))
    by (apply final_run; vm_compute; reflexivity).
  assert (H2 : accepted (Toy.handle Toy.goal_text)
                 (Toy.started_shutdown Toy.goal_text))
    by (unfold accepted; split; vm_compute; reflexivity).
  split; [exact H1|]. split; [exact H2|].
  destruct (admission_after_execute _ _ _ _ H1 H2) as (s' & Hrun & Hadm).
  exists s'. split; [exact Hrun|]. exact (Hadm 1%nat Toy.goal_other).
Defined.

Lemma execute_reports_to_member_handle_witness :
  execute_setup Toy.stranger (Toy.started Toy.goal_text) =
    inr (true, final (execute_setup Toy.stranger) (Toy.started Toy.goal_text)) /\
  accepted (Toy.handle Toy.goal_text) (Toy.started Toy.goal_text) /\
  exists s',
    execute Toy.stranger (Toy.started Toy.goal_text) = inr (tt, s') /\
    status s' 0%nat = STATUS_SUCCEEDED /\
    status s' 1%nat = STATUS_UNKNOWN /\
    feedback_tokens
      (events_since
         (final (execute_setup Toy.stranger) (Toy.started Toy.goal_text)) s') =
    [89; 111].
Proof.
  assert (H1 : execute_setup Toy.stranger (Toy.started Toy.goal_text) =
               inr (true, final (execute_setup Toy.stranger)
                            (Toy.started Toy.goal_text)))
    by (apply final_run; vm_compute; reflexivity).
  assert (H2 : accepted (Toy.handle Toy.goal_text) (Toy.started Toy.goal_text))
    by (unfold accepted; split; vm_compute; reflexivity).
  assert (H3 : negb true || rclcpp_ok (Toy.started Toy.goal_text) = true)
    by (vm_compute; reflexivity).
  split; [exact H1|]. split; [exact H2|].
  destruct (execute_reports_to_member_handle _ _ _ _ _ H1 H2 H3)
    as (s' & Hrun & Hev & Hst & Hother).
  exists s'. split; [exact Hrun|].
  split; [etransitivity; [exact Hst | vm_compute; reflexivity]|].
  split.
  - rewrite (Hother 1%nat) by (vm_compute; discriminate).
    vm_compute. reflexivity.
  - rewrite Hev. vm_compute. reflexivity.
Defined.

Lemma execute_with_null_member_witness :
  goal_handle_ Toy.state0 = None /\
  execute (Toy.handle Toy.goal_text) Toy.state0 = inl NULL_DEREFERENCE.
Proof.
  assert (H1 : goal_handle_ Toy.state0 = None) by reflexivity.
  assert (H2 : execute_setup (Toy.handle Toy.goal_text) Toy.state0 =
               inr (true, final (execute_setup (Toy.handle Toy.goal_text))
                            Toy.state0))
    by (apply final_run; vm_compute; reflexivity).
  split; [exact H1|].
  exact (execute_with_null_member _ _ _ _ H1 H2).
Defined.

Lemma execute_resolves_at_most_once_witness :
  accepted (Toy.handle Toy.goal_big) (Toy.started Toy.goal_big) /\
  exists s',
    execute (Toy.handle Toy.goal_big) (Toy.started Toy.goal_big) = inr (tt, s') /\
    List.length
      (filter is_resolution_event (events_since (Toy.started Toy.goal_big) s')) =
    1%nat.
Proof.
  assert (H1 : accepted (Toy.handle Toy.goal_big) (Toy.started Toy.goal_big))
    by (unfold accepted; split; vm_compute; reflexivity).
  assert (H2 : execute (Toy.handle Toy.goal_big) (Toy.started Toy.goal_big) =
               inr (tt, final (execute (Toy.handle Toy.goal_big))
                          (Toy.started Toy.goal_big)))
    by (apply final_run; vm_compute; reflexivity).
  split; [exact H1|]. eexists. split; [exact H2|].
  destruct (execute_resolves_at_most_once _ _ _ H1 H2)
    as [(_ & Hok & _)|(r & [H|[H|H]])];
    [vm_compute in Hok; discriminate Hok | | |]; rewrite H; reflexivity.
Defined.


Lemma execute_setup_loads_encoded_image_witness :
  (0 < List.length (Image.data (image Toy.goal_big)))%nat /\
  execute_setup (Toy.handle Toy.goal_big) (Toy.started Toy.goal_big) =
    inr (true, Toy.after_setup Toy.goal_big) /\
  exists (buf : list byte) (encoded : string),
    cv_imencode_jpg (Engine := Toy.engine) Toy.big_image = Some buf /\
    std_decode (list_ascii_of_string encoded) = Some buf /\
    In (ev_load_image encoded true)
      (events_since (Toy.started Toy.goal_big) (Toy.after_setup Toy.goal_big)).
Proof.
  assert (H1 : (0 < List.length (Image.data (image Toy.goal_big)))%nat)
    by (vm_compute; lia).
  assert (H2 : execute_setup (Toy.handle Toy.goal_big) (Toy.started Toy.goal_big) =
               inr (true, Toy.after_setup Toy.goal_big))
    by (apply final_run; vm_compute; reflexivity).
  split; [exact H1|]. split; [exact H2|].
  destruct (execute_setup_loads_encoded_image
              (Toy.handle Toy.goal_big) (Toy.started Toy.goal_big)
              (Toy.after_setup Toy.goal_big) true H1 H2)
    as (buf & encoded & Hcv & _ & Hdec & _ & _ & Hev).
  exists buf, encoded. split; [exact Hcv|]. split; [exact Hdec|].
  rewrite Hev. apply in_or_app. right. cbn. auto.
Defined.

Lemma cancel_request_then_execute_witness :
  let gh := Toy.handle Toy.goal_text in
  let s := Toy.started Toy.goal_text in
  let s1 := final (server_cancel_request gh) s in
  let s2 := final (execute_setup gh) s1 in
  goal_handle_ s = Some gh /\
  status s (uuid gh) = STATUS_EXECUTING /\
  rclcpp_ok s = true /\
  server_cancel_request gh s = inr (tt, s1) /\
  execute_setup gh s1 = inr (true, s2) /\
  exists s',
    execute gh s1 = inr (tt, s') /\
    status s' 0%nat = STATUS_CANCELED /\
    filter is_resolution_event (events_since s s') =
      [ev_canceled 0 (mk_Result Response.empty)].
Proof.
  cbv zeta.
  assert (H1 : goal_handle_ (Toy.started Toy.goal_text) =
               Some (Toy.handle Toy.goal_text)) by (vm_compute; reflexivity).
  assert (H2 : status (Toy.started Toy.goal_text)
                 (uuid (Toy.handle Toy.goal_text)) = STATUS_EXECUTING)
    by (vm_compute; reflexivity).
  assert (H3 : rclcpp_ok (Toy.started Toy.goal_text) = true)
    by (vm_compute; reflexivity).
  assert (H4 : server_cancel_request (Toy.handle Toy.goal_text)
                 (Toy.started Toy.goal_text) =
               inr (tt, final (server_cancel_request (Toy.handle Toy.goal_text))
                          (Toy.started Toy.goal_text)))
    by (apply final_run; vm_compute; reflexivity).
  assert (H5 : execute_setup (Toy.handle Toy.goal_text)
                 (final (server_cancel_request (Toy.handle Toy.goal_text))
                    (Toy.started Toy.goal_text)) =
               inr (true,
                    final (execute_setup (Toy.handle Toy.goal_text))
                      (final (server_cancel_request (Toy.handle Toy.goal_text))
                         (Toy.started Toy.goal_text))))
    by (apply final_run; vm_compute; reflexivity).
  split; [exact H1|]. split; [exact H2|]. split; [exact H3|].
  split; [exact H4|]. split; [exact H5|].
  destruct (cancel_request_then_execute _ _ _ _ H1 H2 H3 H4 H5)
    as (_ & s' & Hrun & Hst & Hev & _).
  exists s'. split; [exact Hrun|]. split; [exact Hst|].
  rewrite Hev. vm_compute. reflexivity.
Defined.

Lemma url_mode_is_never_exercised_witness :
  exists s',
    execute (Toy.handle Toy.goal_marked) (Toy.started Toy.goal_marked) =
      inr (tt, s') /\
    Forall standard_mode (events_since (Toy.started Toy.goal_marked) s') /\
    In (ev_base64_encode 5 false)
      (events_since (Toy.started Toy.goal_marked) s') /\
    In (ev_load_image "+//++/8=" true)
      (events_since (Toy.started Toy.goal_marked) s') /\
    base64_encode (Image.data Toy.marked_image) 5 false =
      Some "+//++/8="%string /\
    base64_encode (Image.data Toy.marked_image) 5 true =
      Some "-__--_8."%string.
Proof.
  exists (final (execute (Toy.handle Toy.goal_marked))
            (Toy.started Toy.goal_marked)).
  assert (H : execute (Toy.handle Toy.goal_marked)
                (Toy.started Toy.goal_marked) =
              inr (tt, final (execute (Toy.handle Toy.goal_marked))
                         (Toy.started Toy.goal_marked)))
    by (apply final_run; vm_compute; reflexivity).
  destruct (url_mode_is_never_exercised (E := Toy.engine))
    as (_ & _ & _ & _ & _ & _ & _ & Hstd & Henc & _ & _).
  split; [exact H|].
  split; [exact (Hstd _ _ _ H)|].
  split; [vm_compute; tauto|].
  split; [vm_compute; tauto|].
  split.
  - etransitivity;
      [apply (Henc (Image.data Toy.marked_image) false); vm_compute; reflexivity
      | vm_compute; reflexivity].
  - etransitivity;
      [apply (Henc (Image.data Toy.marked_image) true); vm_compute; reflexivity
      | vm_compute; reflexivity].
Defined.
